(** * TectonicsModeling: raster-based geological sub-models of tectonics.js

    A shallow embedding of [src/noncompiled/academics/TectonicsModeling.js]
    and the properties its specification states about it.

    Numbers.  A JavaScript number is modelled by [num]: a finite value is an
    exact rational, and the IEEE-754 special values that the code relies on
    (the two infinities and not-a-number, produced by division by zero) are
    kept as constructors of their own.  Rounding to 32 or 64 bits and
    overflow are not modelled, and the two zeros are identified: the
    development is the exact-arithmetic reading of the program.

    Rasters.  A raster is a typed array: reading outside its bounds yields
    [undefined] (not-a-number once used in arithmetic), writing outside its
    bounds is ignored, and its length never changes.  Lists with stdpp's
    lookup and insert have exactly this behaviour. *)

From Stdlib Require Import QArith Qminmax Lqa Lia.
From stdpp Require Import base option list gmap.

Local Open Scope Q_scope.

(** ** JavaScript numbers *)

Module JS.

Inductive num : Type :=
  | Fin (q : Q)
  | PInf
  | NInf
  | NaN.

Definition zero : num := Fin 0.
Definition one : num := Fin 1.

(** Sign of a rational as a comparison with zero. *)
Definition sgn (q : Q) : comparison := 0 ?= q.

Definition neg (x : num) : num :=
  match x with
  | Fin q => Fin (- q)
  | PInf => NInf
  | NInf => PInf
  | NaN => NaN
  end.

Definition add (x y : num) : num :=
  match x, y with
  | NaN, _ | _, NaN => NaN
  | Fin a, Fin b => Fin (a + b)
  | PInf, NInf | NInf, PInf => NaN
  | PInf, _ | _, PInf => PInf
  | NInf, _ | _, NInf => NInf
  end.

Definition sub (x y : num) : num := add x (neg y).

(** An infinity times a finite value: zero gives NaN, otherwise the sign
    decides. *)
Definition inf_times (positive : bool) (q : Q) : num :=
  match sgn q with
  | Eq => NaN
  | Lt => if positive then PInf else NInf
  | Gt => if positive then NInf else PInf
  end.

Definition mul (x y : num) : num :=
  match x, y with
  | NaN, _ | _, NaN => NaN
  | Fin a, Fin b => Fin (a * b)
  | PInf, Fin b => inf_times true b
  | NInf, Fin b => inf_times false b
  | Fin a, PInf => inf_times true a
  | Fin a, NInf => inf_times false a
  | PInf, PInf | NInf, NInf => PInf
  | PInf, NInf | NInf, PInf => NInf
  end.

(** Division.  A finite value over zero is an infinity of the sign of the
    numerator, and zero over zero is NaN; a finite value over an infinity is
    zero; an infinity over a finite value keeps or flips its sign (the zero
    divisor counts as positive, the only zero of the model). *)
Definition div (x y : num) : num :=
  match x, y with
  | NaN, _ | _, NaN => NaN
  | Fin a, Fin b =>
      match sgn b with
      | Eq => match sgn a with Eq => NaN | Lt => PInf | Gt => NInf end
      | _ => Fin (a / b)
      end
  | Fin _, (PInf | NInf) => Fin 0
  | (PInf | NInf), (PInf | NInf) => NaN
  | PInf, Fin b => match sgn b with Gt => NInf | _ => PInf end
  | NInf, Fin b => match sgn b with Gt => PInf | _ => NInf end
  end.

(** [x > y] and [x < y]: false as soon as one side is NaN. *)
Definition ltb (x y : num) : bool :=
  match x, y with
  | NaN, _ | _, NaN => false
  | Fin a, Fin b => match a ?= b with Lt => true | _ => false end
  | NInf, NInf => false
  | NInf, _ => true
  | _, PInf => match x with PInf => false | _ => true end
  | _, _ => false
  end.

Definition gtb (x y : num) : bool := ltb y x.

(** Truthiness of a number: zero and NaN are falsy. *)
Definition truthy (x : num) : bool :=
  match x with
  | Fin q => negb (Qeq_bool q 0)
  | PInf | NInf => true
  | NaN => false
  end.

(** [x || y] on numbers. *)
Definition or_else (x y : num) : num := if truthy x then x else y.

(** [Math.min] and [Math.max]: NaN as soon as one argument is NaN. *)
Definition min (x y : num) : num :=
  match x, y with
  | NaN, _ | _, NaN => NaN
  | _, _ => if ltb x y then x else y
  end.

Definition max (x y : num) : num :=
  match x, y with
  | NaN, _ | _, NaN => NaN
  | _, _ => if ltb y x then x else y
  end.

(** Equality of numbers as values: rationals up to [Qeq]; NaN is related to
    itself, this is the equality of the model and not the [==] of the
    language. *)
Definition eqv (x y : num) : Prop :=
  match x, y with
  | Fin a, Fin b => a == b
  | PInf, PInf | NInf, NInf | NaN, NaN => True
  | _, _ => False
  end.

Definition eqvb (x y : num) : bool :=
  match x, y with
  | Fin a, Fin b => Qeq_bool a b
  | PInf, PInf | NInf, NInf | NaN, NaN => true
  | _, _ => false
  end.

Definition is_fin (x : num) : Prop :=
  match x with Fin _ => True | _ => False end.

Definition is_finb (x : num) : bool :=
  match x with Fin _ => true | _ => false end.

(** The rational held by a finite number (zero otherwise). *)
Definition val (x : num) : Q :=
  match x with Fin q => q | _ => 0 end.

(** A number that is finite and not negative. *)
Definition nonnegb (x : num) : bool :=
  match x with Fin q => Qle_bool 0 q | _ => false end.

Definition of_nat (n : nat) : num := Fin (inject_Z (Z.of_nat n)).

End JS.

Import JS.

Declare Scope num_scope.
Delimit Scope num_scope with num.
Bind Scope num_scope with num.
Infix "+" := add : num_scope.
Infix "-" := sub : num_scope.
Infix "*" := mul : num_scope.
Infix "/" := div : num_scope.
Infix "≃" := eqv (at level 70, no associativity) : num_scope.

(** A raster of numbers and the two accesses of a typed array. *)
Abbreviation Float32Raster := (list num).

(** [a[i]] as an operand: [undefined] becomes NaN in arithmetic. *)
Definition rd (a : Float32Raster) (i : nat) : num := default NaN (a !! i).

(** [a[i] = v]: ignored outside the bounds. *)
Definition wr (a : Float32Raster) (i : nat) (v : num) : Float32Raster := <[i := v]> a.

(** ** Grids and crusts *)

(** The part of a grid that the models read: the directed edges
    [[from, to]] between cells and the number of neighbours of each cell.
    A raster over a grid has one cell per vertex of the grid. *)
Record Grid : Type := {
  arrows : list (nat * nat);
  neighbor_count : list nat
}.

(** [neighbor_count[i]] as an operand. *)
Definition nc (grid : Grid) (i : nat) : num :=
  match neighbor_count grid !! i with
  | Some n => of_nat n
  | None => NaN
  end.

(** The rasters of a crust that the models name. *)
Record Crust : Type := {
  sediment : Float32Raster;
  sedimentary : Float32Raster;
  metamorphic : Float32Raster;
  sial : Float32Raster;
  sima : Float32Raster
}.

(** Modelled from the spec: [Float32Raster.fill] is not in the sources; it
    is the field fill of the field-algebra collaborator: every cell of the
    raster receives the value. *)
Definition fill (raster : Float32Raster) (value : num) : Float32Raster :=
  replicate (length raster) value.

(** Modelled from the spec: [Crust.reset] is not in the sources; the delta
    bundle it is applied to holds the signed changes of one step, and the
    reset gives every raster of the bundle the value zero. *)
Definition Crust_reset (crust : Crust) : Crust :=
  {| sediment := fill (sediment crust) zero;
     sedimentary := fill (sedimentary crust) zero;
     metamorphic := fill (metamorphic crust) zero;
     sial := fill (sial crust) zero;
     sima := fill (sima crust) zero |}.

(** Modelled from the spec: [ScalarField.sub_scalar] and
    [ScalarField.max_scalar] are not in the sources; they are the elementwise
    subtraction and clamp-min of the field-algebra collaborator, and together
    give [water_height = max(displacement - sealevel, 0)]. *)
Definition sub_scalar (field : Float32Raster) (scalar : num) : Float32Raster :=
  (λ x, x - scalar)%num <$> field.

Definition max_scalar (field : Float32Raster) (scalar : num) : Float32Raster :=
  (λ x, JS.max x scalar) <$> field.

(** ** Erosion *)

Module Erosion.

Definition precipitation : num := Fin 780000.
Definition erosiveFactor : num := Fin (18 # 100000000).

(** The height moved along one arrow, as both loops over the arrows compute
    it. *)
Definition height_transfer (water_height : Float32Raster) (timestep : num)
    (arrow : nat * nat) : num :=
  let from := arrow.1 in
  let to := arrow.2 in
  let height_difference := (rd water_height from - rd water_height to)%num in
  if gtb height_difference zero
  then (height_difference * precipitation * timestep * erosiveFactor)%num
  else zero.

(** First loop: the body for one arrow. *)
Definition accumulate_arrow (water_height : Float32Raster) (timestep : num)
    (outbound_height_transfer : Float32Raster) (arrow : nat * nat) : Float32Raster :=
  let from := arrow.1 in
  wr outbound_height_transfer from
     (rd outbound_height_transfer from + height_transfer water_height timestep arrow)%num.

(** [fraction > 1? 1 : fraction < 0? 0 : fraction] *)
Definition clamp_fraction (fraction : num) : num :=
  if gtb fraction one then one else if ltb fraction zero then zero else fraction.

(** Second loop: the body for one cell.  The four blocks are kept in the
    order of the source; [crust_scratch] receives the outbound fractions. *)
Definition fraction_cell (grid : Grid) (top_crust : Crust)
    (outbound_height_transfer : Float32Raster)
    (crust_scratch : Crust) (i : nat) : Crust :=
  let outbound_height_transfer_i := rd outbound_height_transfer i in

  let fraction := (rd (sediment top_crust) i / outbound_height_transfer_i)%num in
  let fraction := clamp_fraction fraction in
  let outbound_sediment_fraction :=
    wr (sediment crust_scratch) i (or_else (fraction / nc grid i)%num zero) in
  let outbound_height_transfer_i := (outbound_height_transfer_i * (one - fraction))%num in

  let fraction := (rd (sedimentary top_crust) i / outbound_height_transfer_i)%num in
  let fraction := clamp_fraction fraction in
  let outbound_sedimentary_fraction :=
    wr (sedimentary crust_scratch) i (or_else (fraction / nc grid i)%num zero) in
  let outbound_height_transfer_i := (outbound_height_transfer_i * (one - fraction))%num in

  let fraction := (rd (metamorphic top_crust) i / outbound_height_transfer_i)%num in
  let fraction := clamp_fraction fraction in
  let outbound_metamorphic_fraction :=
    wr (metamorphic crust_scratch) i (or_else (fraction / nc grid i)%num zero) in
  let outbound_height_transfer_i := (outbound_height_transfer_i * (one - fraction))%num in

  let fraction := (rd (sial top_crust) i / outbound_height_transfer_i)%num in
  let fraction := clamp_fraction fraction in
  let outbound_sial_fraction :=
    wr (sial crust_scratch) i (or_else (fraction / nc grid i)%num zero) in

  {| sediment := outbound_sediment_fraction;
     sedimentary := outbound_sedimentary_fraction;
     metamorphic := outbound_metamorphic_fraction;
     sial := outbound_sial_fraction;
     sima := sima crust_scratch |}.

(** Third loop: the body for one arrow; [crust_scratch] holds the outbound
    fractions and [crust_delta] is updated at both ends of the arrow. *)
Definition transfer_arrow (water_height : Float32Raster) (timestep : num)
    (crust_scratch : Crust) (crust_delta : Crust) (arrow : nat * nat) : Crust :=
  let from := arrow.1 in
  let to := arrow.2 in
  let outbound_height_transfer_i := height_transfer water_height timestep arrow in

  let transfer := (outbound_height_transfer_i * rd (sediment crust_scratch) from)%num in
  let sediment_delta := sediment crust_delta in
  let sediment_delta := wr sediment_delta from (rd sediment_delta from - transfer)%num in
  let sediment_delta := wr sediment_delta to (rd sediment_delta to + transfer)%num in

  let transfer := (outbound_height_transfer_i * rd (sedimentary crust_scratch) from)%num in
  let sedimentary_delta := sedimentary crust_delta in
  let sedimentary_delta := wr sedimentary_delta from (rd sedimentary_delta from - transfer)%num in
  let sedimentary_delta := wr sedimentary_delta to (rd sedimentary_delta to + transfer)%num in

  let transfer := (outbound_height_transfer_i * rd (metamorphic crust_scratch) from)%num in
  let metamorphic_delta := metamorphic crust_delta in
  let metamorphic_delta := wr metamorphic_delta from (rd metamorphic_delta from - transfer)%num in
  let metamorphic_delta := wr metamorphic_delta to (rd metamorphic_delta to + transfer)%num in

  let transfer := (outbound_height_transfer_i * rd (sial crust_scratch) from)%num in
  let sial_delta := sial crust_delta in
  let sial_delta := wr sial_delta from (rd sial_delta from - transfer)%num in
  let sial_delta := wr sial_delta to (rd sial_delta to + transfer)%num in

  {| sediment := sediment_delta;
     sedimentary := sedimentary_delta;
     metamorphic := metamorphic_delta;
     sial := sial_delta;
     sima := sima crust_delta |}.

(** The water height over the grid of [displacement]. *)
Definition get_water_height (displacement : Float32Raster) (sealevel : num) : Float32Raster :=
  max_scalar (sub_scalar displacement sealevel) zero.

(** The total outbound height transfer of every cell (first loop). *)
Definition get_outbound_height_transfer (grid : Grid) (water_height : Float32Raster)
    (timestep : num) : Float32Raster :=
  foldl (accumulate_arrow water_height timestep) (fill water_height zero) (arrows grid).

(** [get_erosion]: the caller's [crust_delta] and [crust_scratch] are
    updated in place; the result is their final contents, in this order.
    The three bundles are objects of their own, no raster is shared between
    them. *)
Definition get_erosion (grid : Grid) (displacement : Float32Raster) (sealevel timestep : num)
    (top_crust crust_delta crust_scratch : Crust) : Crust * Crust :=
  let crust_delta := Crust_reset crust_delta in
  let water_height := get_water_height displacement sealevel in
  let outbound_height_transfer := get_outbound_height_transfer grid water_height timestep in
  let crust_scratch :=
    foldl (fraction_cell grid top_crust outbound_height_transfer) crust_scratch
          (seq 0 (length outbound_height_transfer)) in
  let crust_delta :=
    foldl (transfer_arrow water_height timestep crust_scratch) crust_delta (arrows grid) in
  (crust_delta, crust_scratch).

End Erosion.

(** A fraction as the clamp leaves it: NaN, or a rational of [0, 1]. *)
Definition unit_or_NaN (x : num) : Prop :=
  match x with
  | Fin q => 0 <= q <= 1
  | NaN => True
  | _ => False
  end.

(** A finite fraction of [0, 1]. *)
Definition unit_fraction (x : num) : Prop :=
  match x with
  | Fin q => 0 <= q <= 1
  | _ => False
  end.


(** ** Vocabulary of the properties of erosion *)

(** The four reservoirs that erosion moves, in the priority order of the
    fraction pass. *)
Inductive Reservoir : Type := Sediment | Sedimentary | Metamorphic | Sial.

Definition raster_of (r : Reservoir) (crust : Crust) : Float32Raster :=
  match r with
  | Sediment => sediment crust
  | Sedimentary => sedimentary crust
  | Metamorphic => metamorphic crust
  | Sial => sial crust
  end.

Definition priority : list Reservoir := [Sediment; Sedimentary; Metamorphic; Sial].

(** Number of arrows that leave a cell. *)
Definition out_degree (grid : Grid) (cell : nat) : nat :=
  length (filter (λ arrow, arrow.1 = cell) (arrows grid)).

(** The invariant of a mesh topology of [N] cells: the ends of every arrow
    are cells, and the neighbour count of a cell is the number of arrows that
    leave it. *)
Definition grid_ok (N : nat) (grid : Grid) : Prop :=
  Forall (λ arrow, arrow.1 < N ∧ arrow.2 < N)%nat (arrows grid) ∧
  neighbor_count grid = out_degree grid <$> seq 0 N.

(** The four reservoirs of a crust are rasters of [N] cells. *)
Definition crust_over (N : nat) (crust : Crust) : Prop :=
  ∀ r, length (raster_of r crust) = N.

Definition finite (a : Float32Raster) : Prop := Forall is_fin a.

(** Finite and not negative in every cell. *)
Definition nonneg (a : Float32Raster) : Prop := Forall (λ x, nonnegb x = true) a.

(** A valid input of [get_erosion] over a grid of [N] cells: the rasters
    match the topology, every value is finite, and the reservoirs are not
    negative. *)
Record valid_input (N : nat) (grid : Grid) (displacement : Float32Raster)
    (sealevel timestep : num) (top_crust crust_delta crust_scratch : Crust) : Prop := {
  valid_grid : grid_ok N grid;
  valid_cells : length displacement = N;
  valid_displacement : finite displacement;
  valid_sealevel : is_fin sealevel;
  valid_timestep : is_fin timestep;
  valid_top_crust : crust_over N top_crust;
  valid_reservoirs : ∀ r, nonneg (raster_of r top_crust);
  valid_crust_delta : crust_over N crust_delta;
  valid_crust_scratch : crust_over N crust_scratch
}.

(** Sum of a raster over its cells, accumulated from zero. *)
Definition total (a : Float32Raster) : num := foldl add zero a.

Definition crust_total (crust : Crust) : num :=
  (total (sediment crust) + total (sedimentary crust)
   + total (metamorphic crust) + total (sial crust))%num.

(** Modelled from the spec: applying a delta bundle is the work of the
    driver, which is not in the sources; the deltas are signed changes added
    to the bundle after the step, cell by cell. *)
Definition add_field (a b : Float32Raster) : Float32Raster := zip_with add a b.

Definition apply_delta (crust delta : Crust) : Crust :=
  {| sediment := add_field (sediment crust) (sediment delta);
     sedimentary := add_field (sedimentary crust) (sedimentary delta);
     metamorphic := add_field (metamorphic crust) (metamorphic delta);
     sial := add_field (sial crust) (sial delta);
     sima := add_field (sima crust) (sima delta) |}.

(** One transfer along an arrow in the deltas of one reservoir: taken at the
    source, given at the target. *)
Definition move (delta : Float32Raster) (arrow : nat * nat) (transfer : num) : Float32Raster :=
  let delta := wr delta arrow.1 (rd delta arrow.1 - transfer)%num in
  wr delta arrow.2 (rd delta arrow.2 + transfer)%num.

(** Sum of the rationals that a raster holds. *)
Definition vsum (a : Float32Raster) : Q := foldr (λ x s, val x + s) 0 a.

(** What the arrows of [edges] bring to a cell and what they take from it,
    when arrow [a] carries [t a]. *)
Definition inflow (t : nat * nat → Q) (cell : nat) (edges : list (nat * nat)) : Q :=
  foldr (λ arrow s, (if decide (arrow.2 = cell) then t arrow else 0) + s) 0 edges.

Definition outflow (t : nat * nat → Q) (cell : nat) (edges : list (nat * nat)) : Q :=
  foldr (λ arrow s, (if decide (arrow.1 = cell) then t arrow else 0) + s) 0 edges.

(** What an arrow carries of one reservoir in the third loop of erosion:
    the height moved along the arrow times the outbound fraction of its
    source (zero when that is not finite). *)
Definition carried (water_height : Float32Raster) (timestep : num)
    (fractions : Float32Raster) (arrow : nat * nat) : Q :=
  val (Erosion.height_transfer water_height timestep arrow * rd fractions arrow.1)%num.

(** The rule of the withdrawal fractions in the words of the specification:
    the reservoirs are taken in priority order, the fraction of each is
    [clamp(quantity / remaining, 0, 1)], and the remaining flux candidate is
    then updated by [reduce]. *)
Definition clamp (x lo hi : num) : num := JS.max lo (JS.min hi x).

Fixpoint withdrawal_fractions (reduce : num → num → num) (remaining : num)
    (quantities : list num) : list num :=
  match quantities with
  | [] => []
  | quantity :: rest =>
      let fraction := clamp (quantity / remaining)%num zero one in
      fraction :: withdrawal_fractions reduce (reduce remaining fraction) rest
  end.

(** "reduce the remaining flux candidate by
    [remaining_flux_candidate * (1 - fraction)]", read as it is written. *)
Definition reduced_by (remaining fraction : num) : num :=
  (remaining - remaining * (one - fraction))%num.

(** The remaining flux candidate multiplied by [1 - fraction]. *)
Definition scaled_by (remaining fraction : num) : num :=
  (remaining * (one - fraction))%num.

(** The outbound fractions of cell [i] that a rule of update prescribes,
    each divided by the neighbour count of the cell. *)
Definition prescribed_fractions (reduce : num → num → num) (grid : Grid)
    (top_crust : Crust) (outbound_height_transfer : Float32Raster) (i : nat) : list num :=
  (λ fraction, or_else (fraction / nc grid i)%num zero) <$>
    withdrawal_fractions reduce (rd outbound_height_transfer i)
      ((λ r, rd (raster_of r top_crust) i) <$> priority).

(** The outbound fractions of cell [i] that a crust of fractions holds. *)
Definition outbound_fractions (crust_scratch : Crust) (i : nat) : list (option num) :=
  (λ r, raster_of r crust_scratch !! i) <$> priority.

(** The rule of the withdrawal fractions as a property of [get_erosion]:
    after the call, the outbound fractions of every cell are the ones that
    the rule of update prescribes from the total outbound height transfer of
    the cell. *)
Definition fraction_rule (reduce : num → num → num) : Prop :=
  ∀ grid displacement sealevel timestep top_crust crust_delta crust_scratch i,
    (i < length displacement)%nat →
    (∀ r, i < length (raster_of r crust_scratch))%nat →
    Forall2 (λ stored fraction, ∃ x, stored = Some x ∧ (x ≃ fraction)%num)
      (outbound_fractions
         (Erosion.get_erosion grid displacement sealevel timestep
            top_crust crust_delta crust_scratch).2 i)
      (prescribed_fractions reduce grid top_crust
         (Erosion.get_outbound_height_transfer grid
            (Erosion.get_water_height displacement sealevel) timestep) i).

(** Two delta bundles of the same shape: their rasters have the same
    numbers of cells. *)
Definition same_shape (crust1 crust2 : Crust) : Prop :=
  (∀ r, length (raster_of r crust1) = length (raster_of r crust2)) ∧
  length (sima crust1) = length (sima crust2).

(** ** Asthenosphere pressure *)

Module Asthenosphere.

(** Rasters live in a store and are passed by reference, so that two
    parameters may name the same raster. *)
Abbreviation store := (gmap nat Float32Raster).

(** Modelled from the spec: the constructor [Float32Raster(grid)] is not in
    the sources; it gives a new raster over the grid, here of [cells] cells
    that hold zero. *)
Definition Float32Raster_new (h : store) (cells : nat) : nat * store :=
  let l := fresh (dom h) in (l, <[l := replicate cells zero]> h).

(** [raster || Float32Raster(density.grid)] *)
Definition or_new (h : store) (cells : nat) (raster : option nat) : nat * store :=
  match raster with
  | Some l => (l, h)
  | None => Float32Raster_new h cells
  end.

(** Modelled from the spec: [Float32Raster.copy] is not in the sources; it
    is the field copy of the field-algebra collaborator, between rasters over
    one grid: the result holds the cells of the source. *)
Definition copy (h : store) (raster result : nat) : store :=
  match h !! raster with
  | Some a => <[result := a]> h
  | None => h
  end.

(** Sum of the values of the neighbours of every cell: one pass over the
    arrows. *)
Definition add_neighbor (field : Float32Raster) (sums : Float32Raster)
    (arrow : nat * nat) : Float32Raster :=
  wr sums arrow.1 (rd sums arrow.1 + rd field arrow.2)%num.

Definition neighbor_sum (grid : Grid) (field : Float32Raster) : Float32Raster :=
  foldl (add_neighbor field) (fill field zero) (arrows grid).

(** The average of the neighbours of every cell. *)
Definition neighbor_average (grid : Grid) (field : Float32Raster) : Float32Raster :=
  imap (λ i sum, sum / nc grid i)%num (neighbor_sum grid field).

(** A cell blended with the average of its neighbours, in proportion to the
    diffusion constant. *)
Definition blend (constant : num) (value average : num) : num :=
  (value + constant * (average - value))%num.

(** Modelled from the spec: [ScalarField.diffusion_by_constant] is not in the
    sources; one pass of the local-averaging operator blends the value of
    every cell with the average of its neighbours, in proportion to the
    diffusion constant.  The averages of the whole field are taken first,
    into [scratch], and the blend is then written to [result], which may be
    the field itself. *)
Definition diffusion_by_constant (grid : Grid) (h : store)
    (scalar_field : nat) (constant : num) (result scratch : nat) : store :=
  match h !! scalar_field with
  | None => h
  | Some field =>
      let h := <[scratch := neighbor_average grid field]> h in
      match h !! scalar_field, h !! scratch with
      | Some field, Some average => <[result := zip_with (blend constant) field average]> h
      | _, _ => h
      end
  end.

Definition smoothing_iterations : nat := 15.

(** [get_asthenosphere_pressure]: the result is the reference of the pressure
    raster and the store after the call. *)
Definition get_asthenosphere_pressure (grid : Grid) (h : store)
    (density : nat) (pressure scratch : option nat) : nat * store :=
  let cells := length (default [] (h !! density)) in
  let '(pressure, h) := or_new h cells pressure in
  let '(scratch, h) := or_new h cells scratch in
  let diffuse := diffusion_by_constant grid in
  let h := copy h density pressure in
  let h := Nat.iter smoothing_iterations (λ h, diffuse h pressure one pressure scratch) h in
  (pressure, h).

(** Number of the arrows of [edges] that leave cell [i], as a rational. *)
Definition leaving (i : nat) (edges : list (nat * nat)) : Q :=
  inject_Z (Z.of_nat (length (filter (λ arrow : nat * nat, arrow.1 = i) edges))).

(** One pass of the operator on a field, as [diffusion_by_constant] leaves
    it in a result that is not the scratch raster. *)
Definition smooth (grid : Grid) (constant : num) (field : Float32Raster) : Float32Raster :=
  zip_with (blend constant) field (neighbor_average grid field).

(** The rasters that the caller supplies exist, and the scratch raster is
    not the pressure raster. *)
Definition rasters_apart (h : store) (pressure scratch : option nat) : Prop :=
  (∀ p, pressure = Some p → is_Some (h !! p)) ∧
  (∀ s, scratch = Some s → is_Some (h !! s) ∧ pressure ≠ Some s).

End Asthenosphere.

(** Least and greatest value of a field of rationals ([d] when empty). *)
Definition field_min (d : Q) (qs : list Q) : Q :=
  match qs with [] => d | q :: qs => foldl Qmin q qs end.

Definition field_max (d : Q) (qs : list Q) : Q :=
  match qs with [] => d | q :: qs => foldl Qmax q qs end.

(** Every cell of the raster is finite and lies between the bounds. *)
Definition within (lo hi : Q) (a : Float32Raster) : Prop :=
  Forall (λ x, match x with Fin q => lo <= q <= hi | _ => False end) a.

(** ** Isostasy *)

(** [get_displacement]: the result is the final contents of
    [displacement]. *)
Definition get_displacement (thickness density : Float32Raster) (mantleDensity : num)
    (displacement : Float32Raster) : Float32Raster :=
  let inverse_mantle_density := (one / mantleDensity)%num in
  foldl (λ displacement i,
           let thickness_i := rd thickness i in
           wr displacement i
              (thickness_i - thickness_i * rd density i * inverse_mantle_density)%num)
        displacement (seq 0 (length displacement)).

(** ** Plate map *)

Module PlateMap.

Local Open Scope Z_scope.

(** A raster of unsigned bytes: plate ids, or the cells of a binary mask
    (1 inside, 0 outside). *)
Abbreviation Uint8Raster := (list Z).

(** Modelled from the spec: [Uint8Field.eq_scalar] and [Uint8Field.ne_scalar]
    are not in the sources; they are the comparisons of a field with a scalar
    that produce a boolean mask, [labels == id] and [labels != id]. *)
Definition eq_scalar (field : Uint8Raster) (scalar : Z) : Uint8Raster :=
  (λ x, if decide (x = scalar) then 1 else 0) <$> field.

Definition ne_scalar (field : Uint8Raster) (scalar : Z) : Uint8Raster :=
  (λ x, if decide (x = scalar) then 0 else 1) <$> field.

(** Modelled from the spec: [BinaryMorphology.difference] is not in the
    sources; it is the set difference of two masks: a cell is in the result
    when it is in the first mask and not in the second. *)
Definition difference (field1 field2 : Uint8Raster) : Uint8Raster :=
  imap (λ i x, if decide (x = 1 ∧ field2 !! i ≠ Some 1) then 1 else 0) field1.

(** Modelled from the spec: [Uint8RasterGraphics.fill_into_selection] is not
    in the sources; it writes the fill value into the cells of the field that
    the selection mask holds and leaves the other cells as they are. *)
Definition fill_into_selection (field : Uint8Raster) (fill_value : Z)
    (selection : Uint8Raster) : Uint8Raster :=
  imap (λ i x, if decide (selection !! i = Some 1) then fill_value else x) field.

Section get_plate_map.

(** The collaborators that the post-processing does not constrain: the
    vector raster, the constructor of a raster over its grid and its
    segmentation, the list of the ids of a label field, and the two
    morphological operators with their radius. *)
Context {VectorRaster : Type}.
Variable Uint8Raster_new : VectorRaster → Uint8Raster.
Variable image_segmentation : VectorRaster → nat → nat → Uint8Raster → Uint8Raster.
Variable unique : Uint8Raster → list Z.
Variables dilation closing : Uint8Raster → Z → Uint8Raster.

(** The body of the loop over the plate ids, in two parts: the mask of the
    segment once dilated, closed and cleared of the cells of other plates,
    and the fill of the plate id into the label field under that mask. *)
Definition cleaned_segment (segments : Uint8Raster) (plate_id : Z) : Uint8Raster :=
  let segment := eq_scalar segments plate_id in
  let is_empty := eq_scalar segments 0 in
  let is_occupied := ne_scalar segments plate_id in
  let is_occupied := difference is_occupied is_empty in
  let segment := dilation segment 5 in
  let segment := closing segment 5 in
  difference segment is_occupied.

Definition plate_step (segments : Uint8Raster) (plate_id : Z) : Uint8Raster :=
  let segment := cleaned_segment segments plate_id in
  fill_into_selection segments plate_id segment.

Definition get_plate_map (vector_field : VectorRaster) (segment_num min_segment_size : nat)
    (segments : option Uint8Raster) : Uint8Raster :=
  let segments := default (Uint8Raster_new vector_field) segments in
  let segments := image_segmentation vector_field segment_num min_segment_size segments in
  let plate_ids := unique segments in
  foldl plate_step segments plate_ids.

End get_plate_map.

End PlateMap.

(** A dilation that claims every cell, the most that a dilation can do, and
    a closing that adds nothing. *)
Definition greedy_dilation (segment : PlateMap.Uint8Raster) (radius : Z) : PlateMap.Uint8Raster :=
  replicate (length segment) 1%Z.

Definition idle_closing (segment : PlateMap.Uint8Raster) (radius : Z) : PlateMap.Uint8Raster :=
  segment.

(** Collaborators for a run of [get_plate_map] on labels that are given: a
    vector raster without content, a segmentation that returns the labels it
    receives, and the list of the distinct values of a label field. *)
Definition no_labels (vector_field : unit) : PlateMap.Uint8Raster := [].

Definition given_segmentation (vector_field : unit) (segment_num min_segment_size : nat)
    (segments : PlateMap.Uint8Raster) : PlateMap.Uint8Raster :=
  segments.

Definition distinct_values (segments : PlateMap.Uint8Raster) : list Z :=
  remove_dups segments.

(** ** Weathering *)

Module Weathering.

(** Modelled from the spec: the elementwise primitives of [ScalarField] that
    [get_weathering] calls are not in the sources; they are the elementwise
    arithmetic (multiply, divide, add, clamp-min, clamp-max) of the
    field-algebra collaborator, between a field and a scalar or between two
    fields, and the comparison of a field with a scalar that produces a
    mask.  An operation on two fields runs over the cells of the first and
    reads the second at the same index. *)
Definition field_op (f : num → num → num) (field1 field2 : Float32Raster) : Float32Raster :=
  imap (λ i x, f x (rd field2 i)) field1.

Definition mult_scalar (field : Float32Raster) (scalar : num) : Float32Raster :=
  (λ x, x * scalar)%num <$> field.

Definition div_scalar (field : Float32Raster) (scalar : num) : Float32Raster :=
  (λ x, x / scalar)%num <$> field.

Definition add_scalar (field : Float32Raster) (scalar : num) : Float32Raster :=
  (λ x, x + scalar)%num <$> field.

Definition min_scalar (field : Float32Raster) (scalar : num) : Float32Raster :=
  (λ x, JS.min x scalar) <$> field.

Definition mult_field : Float32Raster → Float32Raster → Float32Raster := field_op mul.
Definition add_field : Float32Raster → Float32Raster → Float32Raster := field_op add.
Definition min_field : Float32Raster → Float32Raster → Float32Raster := field_op JS.min.
Definition div_field : Float32Raster → Float32Raster → Float32Raster := field_op div.

Definition lt_scalar (field : Float32Raster) (scalar : num) : list Z :=
  (λ x, if ltb x scalar then 1%Z else 0%Z) <$> field.

(** Modelled from the spec: [Float32RasterGraphics.fill_into_selection] is not
    in the sources; it writes the fill value into the cells that the
    selection mask holds and leaves the other cells as they are. *)
Definition fill_into_selection (field : Float32Raster) (fill_value : num)
    (selection : list Z) : Float32Raster :=
  imap (λ i x, if decide (selection !! i = Some 1%Z) then fill_value else x) field.

(** A result raster that receives computed values cell by cell: it keeps
    its number of cells. *)
Definition into (result values : Float32Raster) : Float32Raster :=
  imap (λ i old, default old (values !! i)) result.

(** Modelled from the spec: the raster [everything] of a crust is not in the
    sources; it spans all the rasters of the bundle, so that an operation on
    it acts on every raster of the bundle. *)
Definition everything_mult_scalar (crust : Crust) (scalar : num) : Crust :=
  {| sediment := mult_scalar (sediment crust) scalar;
     sedimentary := mult_scalar (sedimentary crust) scalar;
     metamorphic := mult_scalar (metamorphic crust) scalar;
     sial := mult_scalar (sial crust) scalar;
     sima := mult_scalar (sima crust) scalar |}.

Section get_weathering.

(** [ScalarField.average_difference] is not in the sources and the
    specification does not describe it: it is left as it comes. *)
Variable average_difference : Float32Raster → Float32Raster.

(** [get_weathering]: the result is the final contents of [crust_delta].
    The rasters that the function allocates are rasters over the grid of
    [displacement]; [crust_scratch] is not used. *)
Definition get_weathering (displacement : Float32Raster) (sealevel timestep : num)
    (top_crust crust_delta : Crust) : Crust :=
  let precipitation := Fin 780000 in
  let weathering_factor := Fin (18 # 100000000) in
  let critical_sediment_thickness := Fin 1 in
  let earth_surface_gravity := Fin (98 # 10) in
  let surface_gravity := Fin (98 # 10) in

  let water_height := sub_scalar displacement sealevel in
  let water_height := max_scalar water_height zero in

  let average_difference := average_difference water_height in
  let weathering :=
    mult_scalar average_difference
      (weathering_factor * precipitation * timestep
       * surface_gravity / earth_surface_gravity)%num in

  let bedrock_exposure := div_scalar (sediment top_crust) (neg critical_sediment_thickness) in
  let bedrock_exposure := add_scalar bedrock_exposure one in
  let bedrock_exposure := max_scalar bedrock_exposure zero in
  let bedrock_exposure := min_scalar bedrock_exposure one in

  let weathering := mult_field weathering bedrock_exposure in

  let conserved := replicate (length displacement) zero in
  let conserved := add_field conserved (sedimentary top_crust) in
  let conserved := add_field conserved (metamorphic top_crust) in
  let conserved := add_field conserved (sial top_crust) in

  let weathering := min_field weathering conserved in
  let weathering := max_scalar weathering zero in

  let ratio := div_field weathering conserved in
  let is_div_by_zero := lt_scalar conserved (Fin (1 # 100)) in
  let ratio := fill_into_selection ratio zero is_div_by_zero in

  let crust_delta :=
    {| sediment := into (sediment crust_delta) (mult_scalar weathering (Fin (-1)));
       sedimentary := into (sedimentary crust_delta) (mult_field (sedimentary top_crust) ratio);
       metamorphic := into (metamorphic crust_delta) (mult_field (metamorphic top_crust) ratio);
       sial := into (sial crust_delta) (mult_field (sial top_crust) ratio);
       sima := fill (sima crust_delta) zero |} in

  everything_mult_scalar crust_delta (Fin (-1)).

End get_weathering.

End Weathering.

(** The fields that [get_weathering] computes on its way, by name: the rock
    that a cell holds, the exposure of its bedrock, the height that
    weathers, and the ratio of the rock that is converted. *)
Definition conserved_of (displacement : Float32Raster) (top_crust : Crust) : Float32Raster :=
  Weathering.add_field
    (Weathering.add_field
       (Weathering.add_field (replicate (length displacement) zero) (sedimentary top_crust))
       (metamorphic top_crust))
    (sial top_crust).

Definition exposure_of (top_crust : Crust) : Float32Raster :=
  Weathering.min_scalar
    (max_scalar
       (Weathering.add_scalar (Weathering.div_scalar (sediment top_crust) (neg (Fin 1))) one)
       zero)
    one.

Definition weathering_of (average_difference : Float32Raster → Float32Raster)
    (displacement : Float32Raster) (sealevel timestep : num) (top_crust : Crust)
    : Float32Raster :=
  max_scalar
    (Weathering.min_field
       (Weathering.mult_field
          (Weathering.mult_scalar
             (average_difference (max_scalar (sub_scalar displacement sealevel) zero))
             (Fin (18 # 100000000) * Fin 780000 * timestep * Fin (98 # 10) / Fin (98 # 10))%num)
          (exposure_of top_crust))
       (conserved_of displacement top_crust))
    zero.

Definition ratio_of (average_difference : Float32Raster → Float32Raster)
    (displacement : Float32Raster) (sealevel timestep : num) (top_crust : Crust)
    : Float32Raster :=
  Weathering.fill_into_selection
    (Weathering.div_field
       (weathering_of average_difference displacement sealevel timestep top_crust)
       (conserved_of displacement top_crust))
    zero
    (Weathering.lt_scalar (conserved_of displacement top_crust) (Fin (1 # 100))).

(** The input of [get_weathering] at a cell [i]: the relief operator gives a
    finite value [a], the time step is finite, the cell holds the finite
    amounts [sed], [s1], [s2], [s3] of sediment, sedimentary, metamorphic and
    sial rock, and the delta rasters have the cell. *)
Record weathering_input (average_difference : Float32Raster → Float32Raster)
    (displacement : Float32Raster) (sealevel timestep : num)
    (top_crust crust_delta : Crust) (i : nat) (a sed s1 s2 s3 : Q) : Prop := {
  input_cell : (i < length displacement)%nat;
  input_relief :
    average_difference (max_scalar (sub_scalar displacement sealevel) zero) !! i
    = Some (Fin a);
  input_timestep : is_fin timestep;
  input_sediment : sediment top_crust !! i = Some (Fin sed);
  input_sedimentary : sedimentary top_crust !! i = Some (Fin s1);
  input_metamorphic : metamorphic top_crust !! i = Some (Fin s2);
  input_sial : sial top_crust !! i = Some (Fin s3);
  input_delta : ∀ r, (i < length (raster_of r crust_delta))%nat
}.

(** ** Concrete inputs *)

Module Examples.

(** Two cells joined in both directions. *)
Definition pair_grid : Grid :=
  {| arrows := [(0, 1); (1, 0)]%nat; neighbor_count := [1; 1]%nat |}.

(** The ring of four cells of the end-to-end example of the
    specification. *)
Definition ring_grid : Grid :=
  {| arrows := [(0, 1); (1, 2); (2, 3); (3, 0); (1, 0); (2, 1); (3, 2); (0, 3)]%nat;
     neighbor_count := [2; 2; 2; 2]%nat |}.

(** Two joined cells and a third that has no neighbour. *)
Definition lonely_grid : Grid :=
  {| arrows := [(0, 1); (1, 0)]%nat; neighbor_count := [1; 1; 0]%nat |}.

Definition zeros (cells : nat) : Float32Raster := replicate cells zero.

Definition empty_crust (cells : nat) : Crust :=
  {| sediment := zeros cells; sedimentary := zeros cells; metamorphic := zeros cells;
     sial := zeros cells; sima := zeros cells |}.

(** A crust whose rasters hold leftovers of an earlier step. *)
Definition stale_crust (cells : nat) : Crust :=
  {| sediment := replicate cells (Fin 7); sedimentary := replicate cells (Fin (-3));
     metamorphic := replicate cells NaN; sial := replicate cells PInf;
     sima := replicate cells (Fin 1) |}.

(** Sediment in the lowest cell of the ring only. *)
Definition ring_crust : Crust :=
  {| sediment := [Fin 0; Fin 0; Fin 0; Fin 10]; sedimentary := zeros 4;
     metamorphic := zeros 4; sial := zeros 4; sima := zeros 4 |}.

Definition ring_displacement : Float32Raster := [Fin 3; Fin 2; Fin 1; Fin 0].

(** A slope of 1000 m between the two cells; the higher cell holds 200 m of
    sediment over 1 m of sedimentary rock. *)
Definition slope_displacement : Float32Raster := [Fin 1000; Fin 0].

Definition thick_sediment_crust : Crust :=
  {| sediment := [Fin 200; Fin 0]; sedimentary := [Fin 1; Fin 0];
     metamorphic := zeros 2; sial := zeros 2; sima := zeros 2 |}.

(** The same slope with 1 m of sediment over 1 m of sedimentary rock. *)
Definition thin_sediment_crust : Crust :=
  {| sediment := [Fin 1; Fin 0]; sedimentary := [Fin 1; Fin 0];
     metamorphic := zeros 2; sial := zeros 2; sima := zeros 2 |}.

(** Flat ground: sediment in the first cell (and in the lonely third
    cell). *)
Definition flat_displacement (cells : nat) : Float32Raster := zeros cells.

Definition flat_crust (cells : nat) : Crust :=
  {| sediment := replicate cells (Fin 5); sedimentary := zeros cells;
     metamorphic := zeros cells; sial := zeros cells; sima := zeros cells |}.

(** A store that holds one raster, a density field over the ring. *)
Definition ring_density : Float32Raster := [Fin 2700; Fin 2900; Fin 3300; Fin 2890].

Definition ring_store : gmap nat Float32Raster := {[ 0%nat := ring_density ]}.

(** A store that holds a uniform density field over the ring. *)
Definition uniform_store : gmap nat Float32Raster :=
  {[ 0%nat := replicate 4 (Fin 2900) ]}.

(** A relief operator for a run of [get_weathering]: the height of the
    cell itself. *)
Definition own_height (water_height : Float32Raster) : Float32Raster := water_height.

(** Two cells 1000 m above the sea: bare rock, and rock under 2 m of
    sediment. *)
Definition weathering_displacement : Float32Raster := [Fin 1000; Fin 1000].

Definition weathering_crust : Crust :=
  {| sediment := [Fin 0; Fin 2]; sedimentary := [Fin 100; Fin 100];
     metamorphic := [Fin 200; Fin 200]; sial := [Fin 30000; Fin 30000];
     sima := zeros 2 |}.

(** The same relief over a film of rock: 0.001 of sedimentary rock and 0.004
    of sial in the first cell. *)
Definition thin_rock_crust : Crust :=
  {| sediment := [Fin 0; Fin 0]; sedimentary := [Fin (1 # 1000); Fin 100];
     metamorphic := [Fin 0; Fin 200]; sial := [Fin (4 # 1000); Fin 30000];
     sima := zeros 2 |}.

End Examples.
(** ** Facts about numbers *)

Example div_examples :
  (Fin 5 / Fin 0 = PInf)%num ∧ (Fin 0 / Fin 0 = NaN)%num ∧ (Fin 1 / PInf = Fin 0)%num.
Proof. repeat split; reflexivity. Qed.

Section num_facts.

Implicit Types (x y : num) (q : Q).

Lemma eqv_refl x : (x ≃ x)%num.
Proof. destruct x; simpl; auto with qarith. Qed.

Lemma eqv_sym x y : (x ≃ y)%num → (y ≃ x)%num.
Proof. destruct x, y; simpl; auto with qarith. Qed.

Lemma eqv_trans x y z : (x ≃ y)%num → (y ≃ z)%num → (x ≃ z)%num.
Proof. destruct x, y, z; simpl; try tauto. intros H1 H2. by rewrite H1. Qed.

Lemma is_fin_val x : is_fin x → x = Fin (val x).
Proof. by destruct x. Qed.

Lemma ltb_fin q1 q2 : ltb (Fin q1) (Fin q2) = true ↔ q1 < q2.
Proof.
  simpl. rewrite Qlt_alt. destruct (q1 ?= q2); split; congruence.
Qed.

Lemma ltb_fin_false q1 q2 : ltb (Fin q1) (Fin q2) = false ↔ q2 <= q1.
Proof.
  rewrite <- not_true_iff_false, ltb_fin. split; [apply Qnot_lt_le | apply Qle_not_lt].
Qed.

Lemma sgn_Eq q : sgn q = Eq ↔ q == 0.
Proof. unfold sgn. rewrite <- Qeq_alt. split; intros H; lra. Qed.

Lemma sgn_Lt q : sgn q = Lt ↔ 0 < q.
Proof. unfold sgn. by rewrite <- Qlt_alt. Qed.

Lemma sgn_Gt q : sgn q = Gt ↔ q < 0.
Proof. unfold sgn. by rewrite <- Qgt_alt. Qed.

Lemma truthy_fin q : truthy (Fin q) = false ↔ q == 0.
Proof.
  simpl. rewrite negb_false_iff. apply Qeq_bool_iff.
Qed.

(** What [x || 0] can be: never NaN. *)
Lemma or_else_zero_not_NaN x : or_else x zero ≠ NaN.
Proof. unfold or_else. destruct x; simpl; try done. by destruct (negb _). Qed.

Lemma or_else_zero_fin q : ∃ q', or_else (Fin q) zero = Fin q' ∧ q' == q.
Proof.
  unfold or_else. destruct (truthy (Fin q)) eqn:E.
  - exists q. split; [done | reflexivity].
  - exists 0. split; [done |]. apply truthy_fin in E. by rewrite E.
Qed.

End num_facts.

Lemma clamp_fraction_range x : unit_or_NaN (Erosion.clamp_fraction x).
Proof.
  unfold Erosion.clamp_fraction, gtb, one, zero.
  destruct x as [q| | |]; simpl; try lra.
  destruct (1 ?= q) eqn:E1; simpl; try lra.
  - apply Qeq_alt in E1. destruct (q ?= 0) eqn:E2; simpl; try lra.
  - apply Qgt_alt in E1. destruct (q ?= 0) eqn:E2; simpl; try lra.
    + apply Qeq_alt in E2. lra.
    + apply Qgt_alt in E2. lra.
Qed.

Lemma inject_nat_pos (n : nat) : (1 <= n)%nat → 1 <= inject_Z (Z.of_nat n).
Proof.
  intros H. change 1 with (inject_Z 1). rewrite <- Zle_Qle. lia.
Qed.

(** The stored fraction [(fraction / neighbor_count[i]) || 0] of a cell that
    has neighbours. *)
Lemma stored_fraction_unit x (n : nat) :
  unit_or_NaN x → (1 <= n)%nat → unit_fraction (or_else (x / of_nat n)%num zero).
Proof.
  intros Hx Hn. apply inject_nat_pos in Hn.
  destruct x as [q| | |]; simpl in Hx; try done.
  unfold of_nat, div.
  destruct (sgn (inject_Z (Z.of_nat n))) eqn:E.
  - apply sgn_Eq in E. lra.
  - destruct (or_else_zero_fin (q / inject_Z (Z.of_nat n))) as (q' & -> & Hq').
    simpl. rewrite Hq'. split.
    + apply Qle_shift_div_l; lra.
    + apply Qle_shift_div_r; lra.
  - apply sgn_Gt in E. lra.
Qed.

(** ** Rasters *)

Section raster_facts.

Implicit Types (a : Float32Raster) (i : nat).

Lemma rd_lookup a i x : a !! i = Some x → rd a i = x.
Proof. unfold rd. by intros ->. Qed.

Lemma finite_lookup a i : finite a → (i < length a)%nat → ∃ q, a !! i = Some (Fin q).
Proof.
  intros Hfin Hi. destruct (lookup_lt_is_Some_2 a i Hi) as [x Hx].
  pose proof (Forall_lookup_1 _ _ _ _ Hfin Hx) as Hf.
  destruct x; try done. eauto.
Qed.

Lemma length_fill a v : length (fill a v) = length a.
Proof. unfold fill. by rewrite length_replicate. Qed.

Lemma finite_fill a q : finite (fill a (Fin q)).
Proof. unfold fill, finite. apply Forall_replicate. done. Qed.

Lemma vsum_fill_zero a : vsum (fill a zero) == 0.
Proof.
  unfold fill. induction (length a) as [|n IH]; simpl; [reflexivity |]. rewrite IH. lra.
Qed.

Lemma vsum_insert a i x y :
  a !! i = Some x → vsum (<[i := y]> a) == vsum a - val x + val y.
Proof.
  revert i. induction a as [|z a IH]; intros [|i] Hi; simplify_eq/=.
  - lra.
  - rewrite (IH i Hi). lra.
Qed.

(** The total of a finite raster is the sum of its rationals; the
    accumulator of the loop is generalised. *)
Lemma foldl_add_finite a q :
  finite a → ∃ q', foldl add (Fin q) a = Fin q' ∧ q' == q + vsum a.
Proof.
  revert q. induction a as [|x a IH]; intros q Hfin; simpl.
  - exists q. split; [done | lra].
  - apply Forall_cons in Hfin as [Hx Hfin]. destruct x as [p| | |]; try done.
    destruct (IH (q + p) Hfin) as (q' & -> & Hq'). exists q'. split; [done |].
    simpl. lra.
Qed.

Lemma total_finite a : finite a → ∃ q, total a = Fin q ∧ q == vsum a.
Proof.
  intros Hfin. destruct (foldl_add_finite a 0 Hfin) as (q & Hq & Hs).
  exists q. split; [done | lra].
Qed.

(** A write at a cell of two rasters of the same length reads back the
    same way. *)
Lemma insert_lookup_same_length a b i v :
  length a = length b → <[i := v]> a !! i = <[i := v]> b !! i.
Proof.
  intros Hlen. destruct (decide (i < length a)%nat) as [Hi | Hi].
  - rewrite !list_lookup_insert_eq by lia. done.
  - rewrite !list_insert_ge by lia. rewrite !lookup_ge_None_2 by lia. done.
Qed.

End raster_facts.

(** ** The transfer pass of erosion *)

Section transfer_facts.

Import Erosion.

Lemma length_move delta arrow t : length (move delta arrow t) = length delta.
Proof. unfold move, wr. cbv zeta. by rewrite !length_insert. Qed.

(** A finite transfer along an arrow between two cells leaves the deltas
    finite and does not change their sum. *)
Lemma move_balanced delta arrow t :
  finite delta → (arrow.1 < length delta)%nat → (arrow.2 < length delta)%nat →
  is_fin t →
  finite (move delta arrow t) ∧ vsum (move delta arrow t) == vsum delta.
Proof.
  intros Hfin Hfrom Hto Ht. destruct t as [t| | |]; try done.
  destruct (finite_lookup _ _ Hfin Hfrom) as [a Ha].
  unfold move, wr. cbv zeta. rewrite (rd_lookup _ _ _ Ha). simpl.
  set (delta1 := <[arrow.1 := Fin (a + - t)]> delta).
  assert (Hfin1 : finite delta1) by (apply Forall_insert; done).
  assert (Hto1 : (arrow.2 < length delta1)%nat) by (unfold delta1; by rewrite length_insert).
  destruct (finite_lookup _ _ Hfin1 Hto1) as [b Hb].
  rewrite (rd_lookup _ _ _ Hb). simpl. split.
  - apply Forall_insert; done.
  - rewrite (vsum_insert _ _ _ _ Hb). unfold delta1.
    rewrite (vsum_insert _ _ _ _ Ha). simpl. lra.
Qed.

Lemma transfer_arrow_raster r water_height timestep crust_scratch crust_delta arrow :
  raster_of r (transfer_arrow water_height timestep crust_scratch crust_delta arrow)
  = move (raster_of r crust_delta) arrow
      (height_transfer water_height timestep arrow
       * rd (raster_of r crust_scratch) arrow.1)%num.
Proof. by destruct r. Qed.

Lemma transfer_arrow_sima water_height timestep crust_scratch crust_delta arrow :
  sima (transfer_arrow water_height timestep crust_scratch crust_delta arrow)
  = sima crust_delta.
Proof. done. Qed.

(** The loop over the arrows, for one reservoir, when every transfer is
    finite and every arrow joins two cells of the deltas. *)
Lemma transfer_pass_balanced r water_height timestep crust_scratch edges crust_delta :
  finite (raster_of r crust_delta) →
  Forall (λ arrow,
    (arrow.1 < length (raster_of r crust_delta))%nat ∧
    (arrow.2 < length (raster_of r crust_delta))%nat ∧
    is_fin (height_transfer water_height timestep arrow
            * rd (raster_of r crust_scratch) arrow.1)%num) edges →
  let crust_delta' := foldl (transfer_arrow water_height timestep crust_scratch) crust_delta edges in
  finite (raster_of r crust_delta') ∧
  length (raster_of r crust_delta') = length (raster_of r crust_delta) ∧
  vsum (raster_of r crust_delta') == vsum (raster_of r crust_delta).
Proof.
  revert crust_delta. induction edges as [|arrow edges IH]; intros crust_delta Hfin Hedges; simpl.
  - split; [done | split; [done | reflexivity]].
  - apply Forall_cons in Hedges as [(Hfrom & Hto & Ht) Hedges].
    destruct (move_balanced _ arrow _ Hfin Hfrom Hto Ht) as [Hfin1 Hsum1].
    rewrite <- transfer_arrow_raster in Hfin1, Hsum1.
    assert (Hlen1 : length (raster_of r (transfer_arrow water_height timestep crust_scratch crust_delta arrow))
                    = length (raster_of r crust_delta))
      by (rewrite transfer_arrow_raster; apply length_move).
    destruct (IH _ Hfin1) as (Hfin' & Hlen' & Hsum').
    { rewrite Hlen1. done. }
    split; [done | split; [congruence |]]. rewrite Hsum'. done.
Qed.

End transfer_facts.

(** ** The fraction pass of erosion *)

Section fraction_facts.

Import Erosion.

Context (grid : Grid) (top_crust : Crust) (outbound_height_transfer : Float32Raster).

Local Abbreviation body := (fraction_cell grid top_crust outbound_height_transfer).

(** The ternary of the source is the clamp of the specification. *)
Lemma clamp_fraction_clamp x : clamp_fraction x = clamp x zero one.
Proof.
  unfold clamp_fraction, clamp, gtb, JS.max, JS.min, one, zero.
  destruct x as [q| | |]; try reflexivity.
  destruct (ltb (Fin 1) (Fin q)) eqn:E; [reflexivity |].
  destruct (ltb (Fin q) (Fin 0)); reflexivity.
Qed.

Lemma length_fraction_cell r crust_scratch i :
  length (raster_of r (body crust_scratch i)) = length (raster_of r crust_scratch).
Proof. destruct r; simpl; unfold wr; by rewrite length_insert. Qed.

Lemma fraction_cell_other r crust_scratch i j :
  i ≠ j → raster_of r (body crust_scratch i) !! j = raster_of r crust_scratch !! j.
Proof. intros Hne. destruct r; simpl; unfold wr; by rewrite list_lookup_insert_ne. Qed.

(** What the body writes at its cell does not depend on the former contents
    of the rasters: it is the list of fractions of the specification, with
    the remaining flux candidate multiplied by [1 - fraction] after each
    reservoir. *)
Lemma fraction_cell_prescribed crust_scratch i :
  (∀ r, i < length (raster_of r crust_scratch))%nat →
  outbound_fractions (body crust_scratch i) i
  = Some <$> prescribed_fractions scaled_by grid top_crust outbound_height_transfer i.
Proof.
  intros Hlen.
  pose proof (Hlen Sediment) as H1. pose proof (Hlen Sedimentary) as H2.
  pose proof (Hlen Metamorphic) as H3. pose proof (Hlen Sial) as H4.
  cbn [raster_of] in H1, H2, H3, H4.
  unfold outbound_fractions, prescribed_fractions, priority.
  cbn [fmap list_fmap withdrawal_fractions].
  cbv beta iota zeta delta [fraction_cell raster_of sediment sedimentary metamorphic sial
                            wr scaled_by].
  rewrite !list_lookup_insert_eq by done.
  rewrite <- !clamp_fraction_clamp. reflexivity.
Qed.

Lemma length_fraction_pass r crust_scratch cells :
  length (raster_of r (foldl body crust_scratch cells)) = length (raster_of r crust_scratch).
Proof.
  revert crust_scratch. induction cells as [|i cells IH]; intros crust_scratch; simpl; [done |].
  by rewrite IH, length_fraction_cell.
Qed.

(** After the loop over the cells [0 .. n-1], the fractions of a cell are
    the ones that the body wrote when it visited the cell. *)
Lemma fraction_pass_lookup r crust_scratch n i :
  (i < n)%nat →
  raster_of r (foldl body crust_scratch (seq 0 n)) !! i
  = raster_of r (body crust_scratch i) !! i.
Proof.
  induction n as [|n IH]; intros Hi; [lia |].
  rewrite seq_S, foldl_app. simpl.
  destruct (decide (i = n)) as [-> | Hne].
  - set (crust := foldl body crust_scratch (seq 0 n)).
    assert (Hlen : ∀ r, length (raster_of r crust) = length (raster_of r crust_scratch))
      by (intros r'; apply length_fraction_pass).
    clearbody crust.
    destruct r; simpl; unfold wr; apply insert_lookup_same_length;
      [ apply (Hlen Sediment) | apply (Hlen Sedimentary)
      | apply (Hlen Metamorphic) | apply (Hlen Sial) ].
  - rewrite fraction_cell_other by done. apply IH. lia.
Qed.

Lemma outbound_fractions_elem r crust i (fractions : list num) :
  outbound_fractions crust i = Some <$> fractions →
  ∃ x, raster_of r crust !! i = Some x ∧ x ∈ fractions.
Proof.
  unfold outbound_fractions, priority. simpl.
  destruct fractions as [|f1 [|f2 [|f3 [|f4 [|]]]]]; simpl; intros [=].
  destruct r; simpl; eexists; (split; [eassumption |]); set_solver.
Qed.

(** The fractions of the whole pass, read through the specification. *)
Lemma fraction_pass_prescribed crust_scratch n i :
  (i < n)%nat → (∀ r, i < length (raster_of r crust_scratch))%nat →
  outbound_fractions (foldl body crust_scratch (seq 0 n)) i
  = Some <$> prescribed_fractions scaled_by grid top_crust outbound_height_transfer i.
Proof.
  intros Hi Hlen. rewrite <- (fraction_cell_prescribed crust_scratch i Hlen).
  unfold outbound_fractions. apply list_fmap_ext. intros _ r _.
  by apply fraction_pass_lookup.
Qed.

(** Whatever the rule of update, a fraction is NaN or lies in [0, 1]. *)
Lemma withdrawal_fractions_range reduce remaining quantities :
  Forall unit_or_NaN (withdrawal_fractions reduce remaining quantities).
Proof.
  revert remaining.
  induction quantities as [|quantity rest IH]; intros remaining; cbn [withdrawal_fractions].
  - constructor.
  - constructor; [| apply IH]. rewrite <- clamp_fraction_clamp. apply clamp_fraction_range.
Qed.

Lemma prescribed_fractions_unit reduce i (n : nat) :
  nc grid i = of_nat n → (1 <= n)%nat →
  Forall unit_fraction (prescribed_fractions reduce grid top_crust outbound_height_transfer i).
Proof.
  intros Hnc Hn. unfold prescribed_fractions. apply Forall_fmap.
  eapply Forall_impl; [apply withdrawal_fractions_range |].
  intros x Hx. simpl. rewrite Hnc. by apply stored_fraction_unit.
Qed.

Lemma prescribed_fractions_not_NaN reduce i :
  Forall (λ x, x ≠ NaN) (prescribed_fractions reduce grid top_crust outbound_height_transfer i).
Proof.
  unfold prescribed_fractions. apply Forall_fmap, Forall_true.
  intros x. apply or_else_zero_not_NaN.
Qed.

End fraction_facts.

(** ** Grids, water height and the height moved along an arrow *)

Section flux_facts.

Import Erosion.

Lemma out_degree_arrow grid arrow :
  arrow ∈ arrows grid → (1 <= out_degree grid arrow.1)%nat.
Proof.
  intros Hin. unfold out_degree.
  assert (Hf : arrow ∈ filter (λ a : nat * nat, a.1 = arrow.1) (arrows grid))
    by (apply list_elem_of_filter; done).
  destruct (filter _ (arrows grid)); [by apply elem_of_nil in Hf | simpl; lia].
Qed.

Lemma nc_out_degree N grid i :
  grid_ok N grid → (i < N)%nat → nc grid i = of_nat (out_degree grid i).
Proof.
  intros [_ Hnc] Hi. unfold nc.
  by rewrite Hnc, list_lookup_fmap, lookup_seq_lt.
Qed.

Lemma grid_ok_arrow N grid arrow :
  grid_ok N grid → arrow ∈ arrows grid → (arrow.1 < N)%nat ∧ (arrow.2 < N)%nat.
Proof.
  intros [Hends _] Hin. by apply (proj1 (Forall_forall _ _) Hends).
Qed.

Lemma nonneg_finite a : nonneg a → finite a.
Proof.
  intros H. eapply Forall_impl; [exact H |]. intros [q| | |]; done.
Qed.

Lemma length_get_water_height displacement sealevel :
  length (get_water_height displacement sealevel) = length displacement.
Proof. unfold get_water_height, max_scalar, sub_scalar. by rewrite !length_fmap. Qed.

Lemma finite_get_water_height displacement sealevel :
  finite displacement → is_fin sealevel → finite (get_water_height displacement sealevel).
Proof.
  intros Hfin Hs. destruct sealevel as [s| | |]; try done.
  unfold get_water_height, max_scalar, sub_scalar, finite.
  rewrite <- list_fmap_compose. apply Forall_fmap.
  eapply Forall_impl; [exact Hfin |]. intros [q| | |]; try done. intros _. simpl.
  by destruct (match 0 ?= q + - s with Lt => true | _ => false end).
Qed.

Lemma length_get_outbound_height_transfer grid water_height timestep :
  length (get_outbound_height_transfer grid water_height timestep) = length water_height.
Proof.
  unfold get_outbound_height_transfer. rewrite <- (length_fill water_height zero).
  generalize (fill water_height zero). induction (arrows grid) as [|arrow edges IH]; intros a; simpl.
  - done.
  - rewrite IH. unfold accumulate_arrow, wr. by rewrite length_insert.
Qed.

(** The height moved along an arrow between two cells is finite; it is not
    negative when the time step is not, and it is zero when the time step
    is. *)
Lemma height_transfer_finite water_height t arrow :
  finite water_height →
  (arrow.1 < length water_height)%nat → (arrow.2 < length water_height)%nat →
  ∃ q, height_transfer water_height (Fin t) arrow = Fin q
       ∧ (0 <= t → 0 <= q) ∧ (t == 0 → q == 0).
Proof.
  intros Hfin Hfrom Hto.
  destruct (finite_lookup _ _ Hfin Hfrom) as [a Ha].
  destruct (finite_lookup _ _ Hfin Hto) as [b Hb].
  unfold height_transfer. cbv zeta.
  rewrite (rd_lookup _ _ _ Ha), (rd_lookup _ _ _ Hb).
  unfold gtb, zero, precipitation, erosiveFactor.
  change (Fin a - Fin b)%num with (Fin (a + - b)).
  destruct (ltb (Fin 0) (Fin (a + - b))) eqn:E.
  - apply ltb_fin in E. eexists. split; [reflexivity |]. split.
    + intros Ht. repeat apply Qmult_le_0_compat; lra.
    + intros Ht. rewrite Ht. ring.
  - exists 0. split; [reflexivity |]. split; intros; lra.
Qed.

Lemma finite_add_field a b :
  finite a → finite b → length a = length b →
  finite (add_field a b) ∧ vsum (add_field a b) == vsum a + vsum b.
Proof.
  revert b. induction a as [|x a IH]; intros [|y b] Ha Hb Hlen; simplify_eq/=.
  - split; [constructor | lra].
  - apply Forall_cons in Ha as [Hx Ha]. apply Forall_cons in Hb as [Hy Hb].
    destruct (IH b Ha Hb) as [Hfin Hsum]; [done |].
    destruct x as [p| | |], y as [q| | |]; try done.
    split; [by constructor |]. unfold add_field in *. simpl. rewrite Hsum. lra.
Qed.

End flux_facts.

(** ** One step of erosion on a valid input *)

Section erosion_facts.

Import Erosion.

Context (N : nat) (grid : Grid) (displacement : Float32Raster) (sealevel timestep : num)
        (top_crust crust_delta crust_scratch : Crust).
Hypothesis valid :
  valid_input N grid displacement sealevel timestep top_crust crust_delta crust_scratch.

Local Abbreviation water_height := (get_water_height displacement sealevel).
Local Abbreviation outbound := (get_outbound_height_transfer grid water_height timestep).
Local Abbreviation fractions :=
  (foldl (fraction_cell grid top_crust outbound) crust_scratch (seq 0 (length outbound))).

Lemma erosion_unfold :
  get_erosion grid displacement sealevel timestep top_crust crust_delta crust_scratch
  = (foldl (transfer_arrow water_height timestep fractions) (Crust_reset crust_delta)
           (arrows grid),
     fractions).
Proof. reflexivity. Qed.

Lemma length_water_height : length water_height = N.
Proof. rewrite length_get_water_height. apply valid. Qed.

Lemma length_outbound : length outbound = N.
Proof. rewrite length_get_outbound_height_transfer. apply length_water_height. Qed.

Lemma finite_water_height : finite water_height.
Proof. apply finite_get_water_height; apply valid. Qed.

(** The outbound fraction of the source of an arrow is a finite fraction of
    [0, 1]: the source has a neighbour. *)
Lemma arrow_fraction_unit r arrow :
  arrow ∈ arrows grid → unit_fraction (rd (raster_of r fractions) arrow.1).
Proof.
  intros Hin.
  destruct (grid_ok_arrow N grid arrow (valid_grid _ _ _ _ _ _ _ _ valid) Hin) as [Hfrom _].
  assert (Hlen : ∀ r', (arrow.1 < length (raster_of r' crust_scratch))%nat).
  { intros r'. by rewrite (valid_crust_scratch _ _ _ _ _ _ _ _ valid r'). }
  assert (Hcell : (arrow.1 < length outbound)%nat) by (by rewrite length_outbound).
  pose proof (fraction_pass_prescribed grid top_crust outbound crust_scratch _ _ Hcell Hlen) as Hp.
  destruct (outbound_fractions_elem r _ _ _ Hp) as (x & Hx & Hmem).
  rewrite (rd_lookup _ _ _ Hx).
  eapply (proj1 (Forall_forall _ _)); [| exact Hmem].
  eapply prescribed_fractions_unit.
  - eapply nc_out_degree; [apply valid | done].
  - by apply out_degree_arrow.
Qed.

(** Every transfer of the third loop is finite; it is zero when the time
    step is zero. *)
Lemma arrow_transfer_finite r arrow :
  arrow ∈ arrows grid →
  ∃ q, (height_transfer water_height timestep arrow
        * rd (raster_of r fractions) arrow.1)%num = Fin q
       ∧ (val timestep == 0 → q == 0).
Proof.
  intros Hin.
  destruct (grid_ok_arrow N grid arrow (valid_grid _ _ _ _ _ _ _ _ valid) Hin) as [Hfrom Hto].
  pose proof (arrow_fraction_unit r arrow Hin) as Hf.
  destruct (rd (raster_of r fractions) arrow.1) as [f| | |]; try done.
  pose proof (valid_timestep _ _ _ _ _ _ _ _ valid) as Ht.
  destruct (height_transfer_finite water_height (val timestep) arrow finite_water_height)
    as (h & Hh & _ & Hz).
  { by rewrite length_water_height. }
  { by rewrite length_water_height. }
  rewrite <- (is_fin_val timestep Ht) in Hh. rewrite Hh.
  exists (h * f). split; [done |]. intros Ht0. rewrite (Hz Ht0). ring.
Qed.

Lemma reset_raster r : raster_of r (Crust_reset crust_delta) = fill (raster_of r crust_delta) zero.
Proof. by destruct r. Qed.

(** The deltas of one reservoir after the step: finite, one per cell, of
    sum zero. *)
Lemma erosion_delta_balanced r :
  let delta :=
    raster_of r (get_erosion grid displacement sealevel timestep
                   top_crust crust_delta crust_scratch).1 in
  finite delta ∧ length delta = N ∧ vsum delta == 0.
Proof.
  rewrite erosion_unfold. cbn [fst snd].
  assert (Hlen0 : length (raster_of r (Crust_reset crust_delta)) = N).
  { rewrite reset_raster, length_fill. apply valid. }
  destruct (transfer_pass_balanced r water_height timestep fractions (arrows grid)
              (Crust_reset crust_delta)) as (Hfin & Hlen & Hsum).
  - rewrite reset_raster. apply finite_fill.
  - apply Forall_forall. intros arrow Hin. rewrite Hlen0.
    destruct (grid_ok_arrow N grid arrow (valid_grid _ _ _ _ _ _ _ _ valid) Hin) as [Hfrom Hto].
    destruct (arrow_transfer_finite r arrow Hin) as (q & -> & _). done.
  - split; [done |]. split; [congruence |].
    rewrite Hsum, reset_raster. apply vsum_fill_zero.
Qed.

End erosion_facts.

(** ** Conservation, zero time step and independence of the former deltas *)

Section erosion_theorems.

Import Erosion.

Lemma apply_delta_raster r crust delta :
  raster_of r (apply_delta crust delta) = add_field (raster_of r crust) (raster_of r delta).
Proof. by destruct r. Qed.

Lemma crust_total_rasters crust :
  crust_total crust
  = (total (raster_of Sediment crust) + total (raster_of Sedimentary crust)
     + total (raster_of Metamorphic crust) + total (raster_of Sial crust))%num.
Proof. reflexivity. Qed.

(** C1. Conservation of mass in transport: on a valid input the deltas of
    each of the four reservoirs sum to zero over the cells, and the total of
    the four reservoirs is the same before and after the deltas are
    applied. *)
Theorem conservation_of_mass N grid displacement sealevel timestep
    top_crust crust_delta crust_scratch :
  valid_input N grid displacement sealevel timestep top_crust crust_delta crust_scratch →
  let crust_delta' :=
    (get_erosion grid displacement sealevel timestep top_crust crust_delta crust_scratch).1 in
  (∀ r, total (raster_of r crust_delta') ≃ zero)%num ∧
  (crust_total (apply_delta top_crust crust_delta') ≃ crust_total top_crust)%num.
Proof.
  intros valid crust_delta'.
  assert (Hbal : ∀ r, finite (raster_of r crust_delta') ∧
                      length (raster_of r crust_delta') = N ∧
                      vsum (raster_of r crust_delta') == 0)
    by (intros r; by apply erosion_delta_balanced).
  split.
  - intros r. destruct (Hbal r) as (Hfin & _ & Hsum).
    destruct (total_finite _ Hfin) as (q & -> & Hq). simpl. by rewrite Hq.
  - assert (Hres : ∀ r, ∃ p q, total (raster_of r (apply_delta top_crust crust_delta')) = Fin p
                               ∧ total (raster_of r top_crust) = Fin q ∧ p == q).
    { intros r. destruct (Hbal r) as (Hfin & Hlen & Hsum).
      pose proof (nonneg_finite _ (valid_reservoirs _ _ _ _ _ _ _ _ valid r)) as Htop.
      destruct (finite_add_field (raster_of r top_crust) (raster_of r crust_delta') Htop Hfin)
        as [Hfin' Hsum'].
      { rewrite Hlen. apply valid. }
      rewrite apply_delta_raster.
      destruct (total_finite _ Hfin') as (p & -> & Hp).
      destruct (total_finite _ Htop) as (q & -> & Hq).
      exists p, q. repeat split. rewrite Hp, Hq, Hsum', Hsum. ring. }
    rewrite !crust_total_rasters.
    destruct (Hres Sediment) as (p1 & q1 & -> & -> & H1).
    destruct (Hres Sedimentary) as (p2 & q2 & -> & -> & H2).
    destruct (Hres Metamorphic) as (p3 & q3 & -> & -> & H3).
    destruct (Hres Sial) as (p4 & q4 & -> & -> & H4).
    simpl. by rewrite H1, H2, H3, H4.
Qed.

End erosion_theorems.

(** Discharges [valid_input] on a concrete input. *)
Ltac valid_input_by_evaluation :=
  constructor;
  [ split; [repeat constructor; simpl; lia | reflexivity]
  | reflexivity
  | repeat constructor
  | exact I
  | exact I
  | intros []; reflexivity
  | intros []; repeat constructor
  | intros []; reflexivity
  | intros []; reflexivity ].

Lemma conservation_of_mass_witness :
  let crust_delta' :=
    (Erosion.get_erosion Examples.ring_grid Examples.ring_displacement zero one
       Examples.ring_crust (Examples.stale_crust 4) (Examples.stale_crust 4)).1 in
  (∀ r, total (raster_of r crust_delta') ≃ zero)%num ∧
  (crust_total (apply_delta Examples.ring_crust crust_delta')
   ≃ crust_total Examples.ring_crust)%num.
Proof.
  apply (conservation_of_mass 4). valid_input_by_evaluation.
Defined.

Section zero_timestep.

Import Erosion.

(** A raster whose cells all hold zero. *)
Local Abbreviation all_zero := (Forall (λ x : num, x ≃ zero)%num).

Lemma move_zero delta arrow t :
  all_zero delta → (arrow.1 < length delta)%nat → (arrow.2 < length delta)%nat →
  (t ≃ zero)%num → all_zero (move delta arrow t).
Proof.
  intros Hz Hfrom Hto Ht. destruct t as [t| | |]; try done. simpl in Ht.
  destruct (lookup_lt_is_Some_2 delta _ Hfrom) as [x Hx].
  pose proof (Forall_lookup_1 _ _ _ _ Hz Hx) as Hx0.
  destruct x as [a| | |]; try done. simpl in Hx0.
  unfold move, wr. cbv zeta. rewrite (rd_lookup _ _ _ Hx). simpl.
  set (delta1 := <[arrow.1 := Fin (a + - t)]> delta).
  assert (Hz1 : all_zero delta1) by (apply Forall_insert; [done | simpl; lra]).
  assert (Hto1 : (arrow.2 < length delta1)%nat) by (unfold delta1; by rewrite length_insert).
  destruct (lookup_lt_is_Some_2 delta1 _ Hto1) as [y Hy].
  pose proof (Forall_lookup_1 _ _ _ _ Hz1 Hy) as Hy0.
  destruct y as [b| | |]; try done. simpl in Hy0.
  rewrite (rd_lookup _ _ _ Hy). simpl. apply Forall_insert; [done | simpl; lra].
Qed.

Lemma transfer_pass_zero r water_height timestep crust_scratch edges crust_delta :
  all_zero (raster_of r crust_delta) →
  Forall (λ arrow,
    (arrow.1 < length (raster_of r crust_delta))%nat ∧
    (arrow.2 < length (raster_of r crust_delta))%nat ∧
    (height_transfer water_height timestep arrow
     * rd (raster_of r crust_scratch) arrow.1 ≃ zero)%num) edges →
  all_zero (raster_of r (foldl (transfer_arrow water_height timestep crust_scratch)
                           crust_delta edges)).
Proof.
  revert crust_delta. induction edges as [|arrow edges IH]; intros crust_delta Hz Hedges; simpl.
  - done.
  - apply Forall_cons in Hedges as [(Hfrom & Hto & Ht) Hedges].
    apply IH.
    + rewrite transfer_arrow_raster. by apply move_zero.
    + rewrite transfer_arrow_raster, length_move. done.
Qed.

(** C7. Zero-timestep identity: on a valid input with [timestep = 0], every
    cell of each of the four delta rasters holds zero after the call. *)
Theorem zero_timestep_identity N grid displacement sealevel top_crust crust_delta crust_scratch :
  valid_input N grid displacement sealevel zero top_crust crust_delta crust_scratch →
  let crust_delta' :=
    (get_erosion grid displacement sealevel zero top_crust crust_delta crust_scratch).1 in
  ∀ r i, (i < N)%nat → ∃ x, raster_of r crust_delta' !! i = Some x ∧ (x ≃ zero)%num.
Proof.
  intros valid crust_delta' r i Hi.
  destruct (erosion_delta_balanced _ _ _ _ _ _ _ _ valid r) as (_ & Hlen & _).
  fold crust_delta' in Hlen.
  destruct (lookup_lt_is_Some_2 (raster_of r crust_delta') i) as [x Hx]; [by rewrite Hlen |].
  exists x. split; [done |].
  eapply (Forall_lookup_1 (λ x : num, x ≃ zero)%num); [| exact Hx].
  unfold crust_delta'. rewrite erosion_unfold. cbn [fst snd].
  apply transfer_pass_zero.
  - rewrite reset_raster. unfold fill. apply Forall_replicate. reflexivity.
  - apply Forall_forall. intros arrow Hin.
    rewrite reset_raster, length_fill, (valid_crust_delta _ _ _ _ _ _ _ _ valid r).
    destruct (grid_ok_arrow N grid arrow (valid_grid _ _ _ _ _ _ _ _ valid) Hin) as [Hfrom Hto].
    destruct (arrow_transfer_finite _ _ _ _ _ _ _ _ valid r arrow Hin) as (q & -> & Hq).
    repeat split; [done | done |]. simpl. apply Hq. reflexivity.
Qed.

End zero_timestep.

Lemma zero_timestep_identity_witness :
  ∃ x, raster_of Sediment
         (Erosion.get_erosion Examples.ring_grid Examples.ring_displacement zero zero
            Examples.ring_crust (Examples.stale_crust 4) (Examples.stale_crust 4)).1 !! 3%nat
       = Some x ∧ (x ≃ zero)%num.
Proof.
  refine (zero_timestep_identity 4 Examples.ring_grid Examples.ring_displacement zero
            Examples.ring_crust (Examples.stale_crust 4) (Examples.stale_crust 4)
            _ Sediment 3%nat _); [valid_input_by_evaluation | lia].
Defined.

(** ** The former contents of the deltas *)

(** C9. The deltas of [get_erosion] do not depend on what the delta bundle
    of the caller held at the call: two calls that differ only in the
    contents of [crust_delta] give the same deltas. *)
Theorem deltas_independent_of_former_contents grid displacement sealevel timestep
    top_crust crust_delta1 crust_delta2 crust_scratch :
  same_shape crust_delta1 crust_delta2 →
  (Erosion.get_erosion grid displacement sealevel timestep
     top_crust crust_delta1 crust_scratch).1
  = (Erosion.get_erosion grid displacement sealevel timestep
       top_crust crust_delta2 crust_scratch).1.
Proof.
  intros [Hshape Hsima]. unfold Erosion.get_erosion. cbv zeta. simpl. f_equal.
  unfold Crust_reset, fill.
  pose proof (Hshape Sediment) as H1. pose proof (Hshape Sedimentary) as H2.
  pose proof (Hshape Metamorphic) as H3. pose proof (Hshape Sial) as H4.
  simpl in *. by rewrite H1, H2, H3, H4, Hsima.
Qed.

Lemma deltas_independent_of_former_contents_witness :
  (Erosion.get_erosion Examples.ring_grid Examples.ring_displacement zero one
     Examples.ring_crust (Examples.stale_crust 4) (Examples.empty_crust 4)).1
  = (Erosion.get_erosion Examples.ring_grid Examples.ring_displacement zero one
       Examples.ring_crust (Examples.empty_crust 4) (Examples.empty_crust 4)).1.
Proof.
  apply deltas_independent_of_former_contents.
  split; [intros []; reflexivity | reflexivity].
Defined.

(** ** The rule of the withdrawal fractions *)

(** C3, as the code has it: the reservoirs are taken in the order sediment,
    sedimentary, metamorphic, sial; the fraction of each is
    [clamp(quantity / remaining, 0, 1)]; and after each fraction the
    remaining flux candidate is multiplied by [1 - fraction]. *)
Theorem fraction_rule_scaled : fraction_rule scaled_by.
Proof.
  intros grid displacement sealevel timestep top_crust crust_delta crust_scratch i Hi Hlen.
  rewrite erosion_unfold. cbn [fst snd].
  rewrite fraction_pass_prescribed; [| | done].
  - apply Forall2_fmap_l, Forall_Forall2_diag, Forall_true.
    intros x. exists x. split; [done | apply eqv_refl].
  - by rewrite length_get_outbound_height_transfer, length_get_water_height.
Qed.

(** C3, as it is stated: with the remaining flux candidate reduced by
    [remaining * (1 - fraction)] the rule fails.  On a slope of 1000 m with
    1 m of sediment over 1 m of sedimentary rock, the candidate is 140.4 m
    and the sediment fraction 1/140.4; the code goes on with 139.4 m and a
    sedimentary fraction of 1/139.4, the stated rule with 1 m and a
    sedimentary fraction of 1. *)
Lemma fraction_rule_reduced_fails : ¬ fraction_rule reduced_by.
Proof.
  intros H.
  specialize (H Examples.pair_grid Examples.slope_displacement zero one
                Examples.thin_sediment_crust (Examples.empty_crust 2)
                (Examples.empty_crust 2) 0%nat).
  assert (H' := H ltac:(simpl; lia) ltac:(intros []; simpl; lia)). clear H.
  eapply (Forall2_lookup_lr _ _ _ 1%nat) in H'; [| reflexivity | reflexivity].
  destruct H' as (x & Hx & Heq). vm_compute in Hx. injection Hx as <-.
  vm_compute in Heq. discriminate.
Qed.

Lemma fraction_rule_scaled_witness :
  Forall2 (λ stored fraction, ∃ x, stored = Some x ∧ (x ≃ fraction)%num)
    (outbound_fractions
       (Erosion.get_erosion Examples.pair_grid Examples.slope_displacement zero one
          Examples.thin_sediment_crust (Examples.empty_crust 2) (Examples.empty_crust 2)).2 0)
    (prescribed_fractions scaled_by Examples.pair_grid Examples.thin_sediment_crust
       (Erosion.get_outbound_height_transfer Examples.pair_grid
          (Erosion.get_water_height Examples.slope_displacement zero) one) 0).
Proof.
  apply fraction_rule_scaled; [simpl; lia | intros []; simpl; lia].
Defined.

(** ** Degenerate divisions *)

Section degenerate_divisions.

Import Erosion.

(** The fraction of an empty reservoir is NaN (over a zero candidate) or
    zero. *)
Lemma empty_reservoir_fraction quantity remaining :
  (quantity ≃ zero)%num →
  let fraction := clamp (quantity / remaining)%num zero one in
  fraction = NaN ∨ (fraction ≃ zero)%num.
Proof.
  intros Hq fraction. subst fraction. rewrite <- clamp_fraction_clamp.
  destruct quantity as [q| | |]; try done. simpl in Hq.
  destruct remaining as [b| | |]; simpl; auto.
  - destruct (sgn b) eqn:Eb.
    + assert (sgn q = Eq) as -> by (by apply sgn_Eq). auto.
    + right. unfold clamp_fraction, gtb, one, zero.
      assert (Hz : q / b == 0) by (rewrite Hq; unfold Qdiv; ring).
      assert (ltb (Fin 1) (Fin (q / b)) = false) as -> by (apply ltb_fin_false; lra).
      assert (ltb (Fin (q / b)) (Fin 0) = false) as -> by (apply ltb_fin_false; lra).
      done.
    + right. unfold clamp_fraction, gtb, one, zero.
      assert (Hz : q / b == 0) by (rewrite Hq; unfold Qdiv; ring).
      assert (ltb (Fin 1) (Fin (q / b)) = false) as -> by (apply ltb_fin_false; lra).
      assert (ltb (Fin (q / b)) (Fin 0) = false) as -> by (apply ltb_fin_false; lra).
      done.
  - right. reflexivity.
  - right. reflexivity.
Qed.

(** Such a fraction is stored as zero, whatever the neighbour count. *)
Lemma empty_fraction_stored fraction count :
  fraction = NaN ∨ (fraction ≃ zero)%num → or_else (fraction / count)%num zero = zero.
Proof.
  intros [-> | Hf]; [done |].
  destruct fraction as [f| | |]; try done. simpl in Hf.
  destruct count as [b| | |]; try done. simpl.
  destruct (sgn b) eqn:Eb.
  - assert (sgn f = Eq) as -> by (by apply sgn_Eq). done.
  - unfold or_else.
    assert (truthy (Fin (f / b)) = false) as ->; [| done].
    apply truthy_fin. rewrite Hf. unfold Qdiv. ring.
  - unfold or_else.
    assert (truthy (Fin (f / b)) = false) as ->; [| done].
    apply truthy_fin. rewrite Hf. unfold Qdiv. ring.
Qed.

Lemma empty_withdrawal_fractions reduce remaining quantities :
  Forall (λ quantity, quantity ≃ zero)%num quantities →
  Forall (λ fraction, fraction = NaN ∨ (fraction ≃ zero)%num)
    (withdrawal_fractions reduce remaining quantities).
Proof.
  intros Hq. revert remaining. induction Hq as [|quantity rest Hz _ IH]; intros remaining; simpl.
  - constructor.
  - constructor; [by apply empty_reservoir_fraction | apply IH].
Qed.

Lemma empty_prescribed_fractions reduce grid top_crust outbound_height_transfer i :
  (∀ r, rd (raster_of r top_crust) i ≃ zero)%num →
  Forall (λ x, x = zero) (prescribed_fractions reduce grid top_crust outbound_height_transfer i).
Proof.
  intros Hz. unfold prescribed_fractions. apply Forall_fmap.
  eapply Forall_impl; [apply empty_withdrawal_fractions |].
  - apply Forall_fmap, Forall_true. intros r. apply Hz.
  - intros fraction Hf. simpl. by apply empty_fraction_stored.
Qed.

(** C8, as the code has it: after the call no outbound fraction of a cell is
    NaN (a division that gives NaN is stored as zero), and a cell whose four
    reservoirs are empty has four outbound fractions equal to zero. *)
Theorem degenerate_divisions grid displacement sealevel timestep
    top_crust crust_delta crust_scratch i :
  (i < length displacement)%nat →
  (∀ r, i < length (raster_of r crust_scratch))%nat →
  let crust_scratch' :=
    (get_erosion grid displacement sealevel timestep top_crust crust_delta crust_scratch).2 in
  (∀ r, ∃ x, raster_of r crust_scratch' !! i = Some x ∧ x ≠ NaN) ∧
  ((∀ r, rd (raster_of r top_crust) i ≃ zero)%num →
   ∀ r, raster_of r crust_scratch' !! i = Some zero).
Proof.
  intros Hi Hlen crust_scratch'.
  assert (Hp : outbound_fractions crust_scratch' i
               = Some <$> prescribed_fractions scaled_by grid top_crust
                   (get_outbound_height_transfer grid
                      (get_water_height displacement sealevel) timestep) i).
  { unfold crust_scratch'. rewrite erosion_unfold. cbn [fst snd].
    apply fraction_pass_prescribed; [| done].
    by rewrite length_get_outbound_height_transfer, length_get_water_height. }
  split.
  - intros r. destruct (outbound_fractions_elem r _ _ _ Hp) as (x & Hx & Hmem).
    exists x. split; [done |].
    eapply (proj1 (Forall_forall (λ x, x ≠ NaN) _));
      [apply prescribed_fractions_not_NaN | exact Hmem].
  - intros Hz r. destruct (outbound_fractions_elem r _ _ _ Hp) as (x & Hx & Hmem).
    rewrite Hx. f_equal.
    eapply (proj1 (Forall_forall (λ x, x = zero) _)); [| exact Hmem].
    by apply empty_prescribed_fractions.
Qed.

End degenerate_divisions.

Lemma degenerate_divisions_witness :
  let crust_scratch' :=
    (Erosion.get_erosion Examples.ring_grid Examples.ring_displacement zero one
       Examples.ring_crust (Examples.empty_crust 4) (Examples.stale_crust 4)).2 in
  (∀ r, ∃ x, raster_of r crust_scratch' !! 0%nat = Some x ∧ x ≠ NaN) ∧
  (∀ r, raster_of r crust_scratch' !! 0%nat = Some zero).
Proof.
  destruct (degenerate_divisions Examples.ring_grid Examples.ring_displacement zero one
              Examples.ring_crust (Examples.empty_crust 4) (Examples.stale_crust 4) 0%nat)
    as [Hnan Hzero]; [simpl; lia | intros []; simpl; lia |].
  split; [exact Hnan | apply Hzero; intros []; reflexivity].
Defined.

(** C8, as it is stated: a division by a zero flux candidate or by a zero
    neighbour count does not always give a zero fraction.  On flat ground
    the candidate of every cell is zero; a cell that holds sediment gets the
    fraction [clamp(5 / 0) / 1 = 1], and the cell without neighbours the
    fraction [1 / 0], an infinity. *)
Lemma zero_divisor_fraction_not_zero :
  let outbound_height_transfer :=
    Erosion.get_outbound_height_transfer Examples.lonely_grid
      (Erosion.get_water_height (Examples.flat_displacement 3) zero) one in
  let crust_scratch' :=
    (Erosion.get_erosion Examples.lonely_grid (Examples.flat_displacement 3) zero one
       (Examples.flat_crust 3) (Examples.empty_crust 3) (Examples.empty_crust 3)).2 in
  (rd outbound_height_transfer 0 ≃ zero)%num ∧
  (rd (sediment crust_scratch') 0 ≃ one)%num ∧
  ¬ (rd (sediment crust_scratch') 0 ≃ zero)%num ∧
  (nc Examples.lonely_grid 2 ≃ zero)%num ∧
  rd (sediment crust_scratch') 2 = PInf ∧
  ¬ (rd (sediment crust_scratch') 2 ≃ zero)%num.
Proof.
  vm_compute. repeat split; try reflexivity; intros H; discriminate || exact H.
Qed.

(** ** Non-negativity *)

(** C2 fails on the code.  The input is valid and the time step positive: a
    slope of 1000 m between two cells, 200 m of sediment over 1 m of
    sedimentary rock in the higher cell.  The flux candidate of the cell is
    140.4 m; the sediment covers it (fraction 1, nothing remains), yet the
    sedimentary rock is then given the fraction [clamp(1 / 0) = 1] of the
    whole candidate: its delta is -140.4 m and the reservoir ends at
    -139.4 m. *)
Theorem sedimentary_driven_negative :
  let crust_delta' :=
    (Erosion.get_erosion Examples.pair_grid Examples.slope_displacement zero one
       Examples.thick_sediment_crust (Examples.empty_crust 2) (Examples.empty_crust 2)).1 in
  valid_input 2 Examples.pair_grid Examples.slope_displacement zero one
    Examples.thick_sediment_crust (Examples.empty_crust 2) (Examples.empty_crust 2) ∧
  nonnegb one = true ∧
  (rd (sedimentary crust_delta') 0 ≃ Fin (- (702 # 5)))%num ∧
  (rd (sedimentary (apply_delta Examples.thick_sediment_crust crust_delta')) 0
   ≃ Fin (- (697 # 5)))%num ∧
  ltb (rd (sedimentary (apply_delta Examples.thick_sediment_crust crust_delta')) 0) zero = true.
Proof.
  intros crust_delta'. split; [valid_input_by_evaluation |].
  vm_compute. repeat split; reflexivity.
Qed.

(** The same happens without any division by zero: with 1 m of sediment
    over 1 m of sedimentary rock the sedimentary fraction is taken of the
    remaining candidate (1 / 139.4) but applied to the whole candidate
    (140.4 m), and more than the metre of rock leaves the cell. *)
Lemma sedimentary_overdrawn :
  let crust_delta' :=
    (Erosion.get_erosion Examples.pair_grid Examples.slope_displacement zero one
       Examples.thin_sediment_crust (Examples.empty_crust 2) (Examples.empty_crust 2)).1 in
  (rd (sedimentary crust_delta') 0 ≃ Fin (- (702 # 697)))%num ∧
  ltb (rd (sedimentary (apply_delta Examples.thin_sediment_crust crust_delta')) 0) zero = true.
Proof.
  vm_compute. repeat split; reflexivity.
Qed.

(** ** Isostasy *)

Section displacement_facts.

Context (thickness density : Float32Raster) (mantleDensity : num).

Local Abbreviation cell_displacement :=
  (λ (displacement : Float32Raster) (i : nat),
     let thickness_i := rd thickness i in
     wr displacement i
        (thickness_i - thickness_i * rd density i * (one / mantleDensity))%num).

(** After the loop over the cells [0 .. n-1], a cell below [n] holds the
    value computed from the thickness and the density of that cell. *)
Lemma displacement_loop_lookup displacement n i :
  (i < n)%nat → (i < length displacement)%nat →
  foldl cell_displacement displacement (seq 0 n) !! i
  = Some (rd thickness i - rd thickness i * rd density i * (one / mantleDensity))%num.
Proof.
  intros Hi Hlen.
  assert (Hl : ∀ m, length (foldl cell_displacement displacement (seq 0 m)) = length displacement).
  { intros m. induction m as [|m IH]; [done |].
    rewrite seq_S, foldl_app. simpl. unfold wr. by rewrite length_insert. }
  induction n as [|n IH]; [lia |].
  rewrite seq_S, foldl_app. simpl. unfold wr.
  destruct (decide (i = n)) as [-> | Hne].
  - rewrite list_lookup_insert_eq; [done | by rewrite Hl].
  - rewrite list_lookup_insert_ne by done. apply IH. lia.
Qed.

End displacement_facts.

(** C6. Isostasy formula: with a positive mantle density, every cell of the
    result of [get_displacement] holds
    [thickness[i] * (1 - density[i] / mantle_density)]; the value is a
    function of the thickness and the density of the cell alone, whatever
    the displacement raster held before. *)
Theorem isostasy_formula thickness density displacement (i : nat) (t d m : Q) :
  (i < length displacement)%nat →
  thickness !! i = Some (Fin t) →
  density !! i = Some (Fin d) →
  0 < m →
  ∃ q, get_displacement thickness density (Fin m) displacement !! i = Some (Fin q)
       ∧ q == t * (1 - d / m).
Proof.
  intros Hi Ht Hd Hm. unfold get_displacement. cbv zeta.
  rewrite displacement_loop_lookup by done.
  rewrite (rd_lookup _ _ _ Ht), (rd_lookup _ _ _ Hd).
  unfold one, div. destruct (sgn m) eqn:Em.
  - apply sgn_Eq in Em. lra.
  - eexists. split; [reflexivity |]. field. lra.
  - apply sgn_Gt in Em. lra.
Qed.

Lemma isostasy_formula_witness :
  ∃ q, get_displacement [Fin 35000; Fin 7000] [Fin 2700; Fin 2890] (Fin 3300)
         [NaN; PInf] !! 1%nat = Some (Fin q)
       ∧ q == 7000 * (1 - 2890 / 3300).
Proof.
  apply isostasy_formula; [simpl; lia | reflexivity | reflexivity | reflexivity].
Defined.

(** ** Plate map *)

Section plate_map_facts.

Import PlateMap.
Local Open Scope Z_scope.

Context (dilation closing : Uint8Raster → Z → Uint8Raster).

Local Abbreviation step := (plate_step dilation closing).
Local Abbreviation mask := (cleaned_segment dilation closing).

(** A cell of another plate is occupied. *)
Lemma occupied_other segments plate_id (i : nat) p :
  segments !! i = Some p → p ≠ 0 → p ≠ plate_id →
  difference (ne_scalar segments plate_id) (eq_scalar segments 0) !! i = Some 1.
Proof.
  intros Hp H0 Hq. unfold difference, ne_scalar, eq_scalar.
  rewrite list_lookup_imap, !list_lookup_fmap, Hp. simpl.
  rewrite (decide_False (P := p = plate_id)) by done.
  rewrite (decide_False (P := p = 0)) by done.
  rewrite decide_True; [done |]. split; [done | discriminate].
Qed.

(** The cleaned mask holds no cell of another plate. *)
Lemma cleaned_segment_spares segments plate_id (i : nat) p :
  segments !! i = Some p → mask segments plate_id !! i = Some 1 → p = 0 ∨ p = plate_id.
Proof.
  intros Hp Hm.
  destruct (decide (p = 0)) as [| H0]; [by left |].
  destruct (decide (p = plate_id)) as [| Hq]; [by right |].
  exfalso. unfold cleaned_segment, difference at 1 in Hm. cbv zeta in Hm.
  rewrite list_lookup_imap in Hm.
  rewrite (occupied_other segments plate_id i p Hp H0 Hq) in Hm.
  destruct (closing _ 5 !! i) as [x|]; simpl in Hm; [| done].
  rewrite decide_False in Hm; [done |]. intros [_ Hne]. by apply Hne.
Qed.

Lemma plate_step_lookup segments plate_id (i : nat) p :
  segments !! i = Some p →
  step segments plate_id !! i
  = Some (if decide (mask segments plate_id !! i = Some 1) then plate_id else p).
Proof.
  intros Hp. unfold plate_step, fill_into_selection. cbv zeta.
  by rewrite list_lookup_imap, Hp.
Qed.

(** C4. Segmentation post-processing never cannibalizes other regions: in
    the step of a plate id [q], a cell labelled with another plate [p]
    (neither 0 nor [q]) is outside the mask that the fill writes under, so
    the fill writes [q] only into cells labelled 0 or [q], and the cell
    keeps its label. *)
Theorem no_cannibalism segments q (i : nat) p :
  segments !! i = Some p → p ≠ 0 → p ≠ q →
  cleaned_segment dilation closing segments q !! i ≠ Some 1 ∧
  plate_step dilation closing segments q !! i = Some p.
Proof.
  intros Hp H0 Hq.
  assert (Hm : mask segments q !! i ≠ Some 1).
  { intros Hm. destruct (cleaned_segment_spares _ _ _ _ Hp Hm); done. }
  split; [done |].
  rewrite (plate_step_lookup _ _ _ _ Hp). by rewrite decide_False.
Qed.

(** Over the whole loop, whatever the list of plate ids: a cell that the
    segmentation labelled keeps its label. *)
Lemma plate_loop_keeps_labels plate_ids segments (i : nat) p :
  segments !! i = Some p → p ≠ 0 → foldl step segments plate_ids !! i = Some p.
Proof.
  revert segments. induction plate_ids as [|q plate_ids IH]; intros segments Hp H0; simpl.
  - done.
  - apply IH; [| done]. rewrite (plate_step_lookup _ _ _ _ Hp).
    destruct (decide (mask segments q !! i = Some 1)) as [Hm |]; [| done].
    destruct (cleaned_segment_spares _ _ _ _ Hp Hm); [done | by subst].
Qed.

End plate_map_facts.

Lemma no_cannibalism_witness :
  PlateMap.cleaned_segment greedy_dilation idle_closing [1; 0; 2; 2; 0]%Z 1%Z !! 2%nat
  ≠ Some 1%Z ∧
  PlateMap.plate_step greedy_dilation idle_closing [1; 0; 2; 2; 0]%Z 1%Z !! 2%nat
  = Some 2%Z.
Proof.
  apply no_cannibalism; [reflexivity | lia | lia].
Defined.

Example plate_step_greedy :
  PlateMap.plate_step greedy_dilation idle_closing [1; 0; 2; 2; 0]%Z 1%Z = [1; 1; 2; 2; 1]%Z.
Proof. reflexivity. Qed.

(** ** Diffusion *)

Section diffusion_facts.

Import Asthenosphere.

Context (N : nat) (grid : Grid).
Hypothesis grid_valid : grid_ok N grid.
Hypothesis has_neighbor : ∀ i, (i < N)%nat → (1 <= out_degree grid i)%nat.

Lemma leaving_snoc_same edges (arrow : nat * nat) :
  leaving arrow.1 (edges ++ [arrow]) == leaving arrow.1 edges + 1.
Proof.
  unfold leaving. rewrite filter_app, length_app, filter_cons_True, filter_nil by done. simpl.
  rewrite Nat2Z.inj_add, inject_Z_plus. reflexivity.
Qed.

Lemma leaving_snoc_other edges (arrow : nat * nat) i :
  arrow.1 ≠ i → leaving i (edges ++ [arrow]) = leaving i edges.
Proof.
  intros Hne. unfold leaving. rewrite filter_app, filter_cons_False, filter_nil by done.
  by rewrite app_nil_r.
Qed.

(** The sums of the neighbours, after any part of the pass over the arrows:
    the sum of a cell lies between as many times the bounds of the field as
    arrows have left the cell. *)
Lemma neighbor_sum_bounds lo hi field edges :
  length field = N → within lo hi field →
  Forall (λ arrow, arrow.1 < N ∧ arrow.2 < N)%nat edges →
  let sums := foldl (add_neighbor field) (fill field zero) edges in
  length sums = N ∧
  ∀ i, (i < N)%nat →
    ∃ s, sums !! i = Some (Fin s) ∧ leaving i edges * lo <= s <= leaving i edges * hi.
Proof.
  intros Hlen Hw. induction edges as [|arrow edges IH] using rev_ind; intros Hends sums.
  - split; [unfold sums; simpl; by rewrite length_fill |].
    intros i Hi. exists 0. split.
    + unfold sums. simpl. unfold fill. apply lookup_replicate_2. by rewrite Hlen.
    + assert (leaving i [] == 0) as -> by reflexivity. lra.
  - apply Forall_app in Hends as [Hends Harrow]. apply Forall_singleton in Harrow as [Hfrom Hto].
    destruct (IH Hends) as [Hl Hinv]. clear IH.
    unfold sums. rewrite foldl_app. simpl.
    set (sums0 := foldl (add_neighbor field) (fill field zero) edges) in *.
    unfold add_neighbor, wr. split; [by rewrite length_insert |].
    intros i Hi.
    destruct (Hinv _ Hfrom) as (s & Hs & Hbounds).
    destruct (lookup_lt_is_Some_2 field arrow.2) as [y Hy]; [by rewrite Hlen |].
    pose proof (Forall_lookup_1 _ _ _ _ Hw Hy) as Hyw.
    destruct y as [f| | |]; try done.
    rewrite (rd_lookup _ _ _ Hs), (rd_lookup _ _ _ Hy). simpl.
    destruct (decide (arrow.1 = i)) as [<- | Hne].
    + exists (s + f). split; [apply list_lookup_insert_eq; by rewrite Hl |].
      rewrite leaving_snoc_same. lra.
    + rewrite list_lookup_insert_ne by done.
      rewrite (leaving_snoc_other _ _ _ Hne). by apply Hinv.
Qed.

(** The average of the neighbours of a cell lies between the bounds of the
    field. *)
Lemma neighbor_average_within lo hi field :
  length field = N → within lo hi field →
  length (neighbor_average grid field) = N ∧ within lo hi (neighbor_average grid field).
Proof.
  intros Hlen Hw.
  destruct (neighbor_sum_bounds lo hi field (arrows grid) Hlen Hw (proj1 grid_valid))
    as [Hl Hinv].
  unfold neighbor_average. fold (neighbor_sum grid field) in *.
  split; [by rewrite length_imap |].
  apply Forall_lookup. intros i x. rewrite list_lookup_imap.
  intros Hx. assert (Hi : (i < N)%nat).
  { rewrite <- Hl. apply lookup_lt_is_Some.
    destruct (neighbor_sum grid field !! i); [eauto | done]. }
  destruct (Hinv i Hi) as (s & Hs & Hbounds). rewrite Hs in Hx. simpl in Hx.
  injection Hx as <-.
  rewrite (nc_out_degree N grid i grid_valid Hi).
  pose proof (inject_nat_pos _ (has_neighbor i Hi)) as Hpos.
  change (leaving i (arrows grid)) with (inject_Z (Z.of_nat (out_degree grid i))) in Hbounds.
  unfold of_nat, div. destruct (sgn (inject_Z (Z.of_nat (out_degree grid i)))) eqn:E.
  - apply sgn_Eq in E. lra.
  - split.
    + apply Qle_shift_div_l; lra.
    + apply Qle_shift_div_r; lra.
  - apply sgn_Gt in E. lra.
Qed.

(** One pass with the diffusion constant 1 keeps the field between its
    bounds. *)
Lemma smooth_within lo hi field :
  length field = N → within lo hi field →
  length (smooth grid one field) = N ∧ within lo hi (smooth grid one field).
Proof.
  intros Hlen Hw. destruct (neighbor_average_within lo hi field Hlen Hw) as [Hl Ha].
  unfold smooth. split; [rewrite length_zip_with; lia |].
  apply Forall_lookup. intros i x. rewrite lookup_zip_with.
  destruct (field !! i) as [v|] eqn:Hv; simpl; [| done].
  destruct (neighbor_average grid field !! i) as [a|] eqn:Hav; simpl; [| done].
  intros [= <-].
  pose proof (Forall_lookup_1 _ _ _ _ Hw Hv) as Hvw.
  pose proof (Forall_lookup_1 _ _ _ _ Ha Hav) as Haw. simpl in Hvw, Haw.
  destruct v as [v| | |], a as [a| | |]; try done. simpl. lra.
Qed.

Lemma iter_smooth_within lo hi field n :
  length field = N → within lo hi field →
  length (Nat.iter n (smooth grid one) field) = N
  ∧ within lo hi (Nat.iter n (smooth grid one) field).
Proof.
  intros Hlen Hw. induction n as [|n [IHl IHw]]; simpl; [done |].
  by apply smooth_within.
Qed.

End diffusion_facts.

(** ** Asthenosphere pressure in the store *)

Section pressure_facts.

Import Asthenosphere.

Context (grid : Grid).

Implicit Types (h : store).

Lemma or_new_spec h cells raster :
  let '(l, h') := or_new h cells raster in
  (raster = Some l ∧ h' = h) ∨
  (raster = None ∧ h !! l = None ∧ h' = <[l := replicate cells zero]> h).
Proof.
  destruct raster as [l|]; simpl; [by left |]. right.
  split; [done |]. split; [| done].
  apply not_elem_of_dom. apply is_fresh.
Qed.

Lemma diffusion_in_place h (p s : nat) constant field :
  p ≠ s → h !! p = Some field →
  diffusion_by_constant grid h p constant p s
  = <[p := smooth grid constant field]> (<[s := neighbor_average grid field]> h).
Proof.
  intros Hne Hp. unfold diffusion_by_constant. rewrite Hp. cbv zeta.
  rewrite lookup_insert_ne by done. rewrite Hp, lookup_insert_eq. done.
Qed.

(** A pass writes to its result and to its scratch raster only. *)
Lemma diffusion_frame h (field result scratch l : nat) constant :
  l ≠ result → l ≠ scratch →
  diffusion_by_constant grid h field constant result scratch !! l = h !! l.
Proof.
  intros Hr Hs. unfold diffusion_by_constant.
  destruct (h !! field) as [f|]; [| done]. cbv zeta.
  destruct (<[scratch := neighbor_average grid f]> h !! field) as [f'|];
    [| by rewrite ?lookup_insert_ne].
  destruct (<[scratch := neighbor_average grid f]> h !! scratch) as [a|];
    by rewrite ?lookup_insert_ne.
Qed.

Lemma iter_diffusion_in_place h (p s : nat) field n :
  p ≠ s → h !! p = Some field →
  Nat.iter n (λ h, diffusion_by_constant grid h p one p s) h !! p
  = Some (Nat.iter n (smooth grid one) field).
Proof.
  intros Hne Hp. induction n as [|n IH]; simpl; [done |].
  rewrite (diffusion_in_place _ _ _ _ _ Hne IH). by rewrite lookup_insert_eq.
Qed.

Lemma iter_diffusion_frame h (p s l : nat) n :
  l ≠ p → l ≠ s →
  Nat.iter n (λ h, diffusion_by_constant grid h p one p s) h !! l = h !! l.
Proof.
  intros Hp Hs. induction n as [|n IH]; simpl; [done |].
  by rewrite diffusion_frame.
Qed.

(** The call on rasters that are apart: fifteen passes in place on a copy
    of the density. *)
Lemma pressure_unfold h density pressure scratch d :
  h !! density = Some d → rasters_apart h pressure scratch →
  ∃ (p s : nat) h0,
    get_asthenosphere_pressure grid h density pressure scratch
    = (p, Nat.iter smoothing_iterations (λ h, diffusion_by_constant grid h p one p s)
            (<[p := d]> h0))
    ∧ p ≠ s.
Proof.
  intros Hd [Hpressure Hscratch]. unfold get_asthenosphere_pressure. rewrite Hd. simpl.
  pose proof (or_new_spec h (length d) pressure) as Hp.
  destruct (or_new h (length d) pressure) as [p h1].
  pose proof (or_new_spec h1 (length d) scratch) as Hs.
  destruct (or_new h1 (length d) scratch) as [s h2].
  assert (Hp1 : is_Some (h1 !! p)).
  { destruct Hp as [[Hp ->] | (_ & _ & ->)]; [by apply Hpressure |].
    rewrite lookup_insert_eq. eauto. }
  assert (Hd1 : h1 !! density = Some d).
  { destruct Hp as [[_ ->] | (_ & Hfresh & ->)]; [done |].
    rewrite lookup_insert_ne; [done |]. intros ->. congruence. }
  assert (Hne : p ≠ s).
  { destruct Hs as [[Hs ->] | (_ & Hfresh & _)].
    - destruct (Hscratch s Hs) as [Hsome Hps].
      destruct Hp as [[Hp _] | (_ & Hfresh & _)]; [congruence |].
      intros ->. rewrite Hfresh in Hsome. by destruct Hsome.
    - intros ->. rewrite Hfresh in Hp1. by destruct Hp1. }
  assert (Hd2 : h2 !! density = Some d).
  { destruct Hs as [[_ ->] | (_ & Hfresh & ->)]; [done |].
    rewrite lookup_insert_ne; [done |]. intros ->. congruence. }
  exists p, s, h2. split; [| done]. unfold copy. by rewrite Hd2.
Qed.

End pressure_facts.

(** The least and the greatest value bound the field. *)
Lemma foldl_Qmin_le q qs :
  foldl Qmin q qs <= q ∧ Forall (λ x, foldl Qmin q qs <= x) qs.
Proof.
  revert q. induction qs as [|x qs IH]; intros q; simpl.
  - split; [lra | constructor].
  - destruct (IH (Qmin q x)) as [H1 H2].
    pose proof (Q.le_min_l q x). pose proof (Q.le_min_r q x).
    split; [lra |]. constructor; [lra | done].
Qed.

Lemma foldl_Qmax_ge q qs :
  q <= foldl Qmax q qs ∧ Forall (λ x, x <= foldl Qmax q qs) qs.
Proof.
  revert q. induction qs as [|x qs IH]; intros q; simpl.
  - split; [lra | constructor].
  - destruct (IH (Qmax q x)) as [H1 H2].
    pose proof (Q.le_max_l q x). pose proof (Q.le_max_r q x).
    split; [lra |]. constructor; [lra | done].
Qed.

Lemma within_min_max a :
  finite a → within (field_min 0 (val <$> a)) (field_max 0 (val <$> a)) a.
Proof.
  intros Hfin. destruct a as [|x a]; [constructor |].
  simpl. destruct (foldl_Qmin_le (val x) (val <$> a)) as [Hmin Hmins].
  destruct (foldl_Qmax_ge (val x) (val <$> a)) as [Hmax Hmaxs].
  apply Forall_cons in Hfin as [Hx Hfin]. constructor.
  - destruct x; done.
  - apply Forall_lookup. intros i y Hy.
    pose proof (Forall_lookup_1 _ _ _ _ Hfin Hy) as Hyf. destruct y as [q| | |]; try done.
    assert (Hq : (val <$> a) !! i = Some q) by (by rewrite list_lookup_fmap, Hy).
    split.
    + exact (Forall_lookup_1 _ _ _ _ Hmins Hq).
    + exact (Forall_lookup_1 _ _ _ _ Hmaxs Hq).
Qed.

Section pressure_theorems.

Import Asthenosphere.

(** C5. Diffusion boundedness: on a grid whose cells all have a neighbour,
    every cell of the pressure field that [get_asthenosphere_pressure]
    returns lies between the least and the greatest value of the density
    field; a pass of local averaging gives no new extremum. *)
Theorem diffusion_bounded N grid (h : store) density pressure scratch d :
  grid_ok N grid →
  (∀ i, (i < N)%nat → (1 <= out_degree grid i)%nat) →
  h !! density = Some d → length d = N → finite d →
  rasters_apart h pressure scratch →
  let result := get_asthenosphere_pressure grid h density pressure scratch in
  ∃ a, result.2 !! result.1 = Some a ∧ length a = N ∧
       within (field_min 0 (val <$> d)) (field_max 0 (val <$> d)) a.
Proof.
  intros Hgrid Hnb Hd Hlen Hfin Hapart result.
  destruct (pressure_unfold grid h density pressure scratch d Hd Hapart)
    as (p & s & h0 & Hcall & Hne).
  unfold result. rewrite Hcall. cbn [fst snd].
  rewrite (iter_diffusion_in_place grid _ p s d _ Hne) by apply lookup_insert_eq.
  eexists. split; [reflexivity |].
  apply (iter_smooth_within N grid Hgrid Hnb); [done |]. by apply within_min_max.
Qed.

(** C10. [get_asthenosphere_pressure] leaves the density field as it was
    whenever the pressure and scratch rasters of the caller are not the density
    raster. *)
Theorem density_unmodified grid (h : store) (density : nat) pressure scratch :
  is_Some (h !! density) → pressure ≠ Some density → scratch ≠ Some density →
  (get_asthenosphere_pressure grid h density pressure scratch).2 !! density = h !! density.
Proof.
  intros Hd Hpressure Hscratch. unfold get_asthenosphere_pressure.
  set (cells := length (default [] (h !! density))).
  pose proof (or_new_spec h cells pressure) as Hp.
  destruct (or_new h cells pressure) as [p h1].
  pose proof (or_new_spec h1 cells scratch) as Hs.
  destruct (or_new h1 cells scratch) as [s h2]. cbn [fst snd].
  assert (Hp' : density ≠ p ∧ h1 !! density = h !! density).
  { destruct Hp as [[Hp ->] | (_ & Hfresh & ->)]; [split; congruence |].
    assert (density ≠ p) by (intros ->; rewrite Hfresh in Hd; by destruct Hd).
    split; [done |]. by rewrite lookup_insert_ne. }
  destruct Hp' as [Hnp Hd1].
  assert (Hs' : density ≠ s ∧ h2 !! density = h !! density).
  { destruct Hs as [[Hs ->] | (_ & Hfresh & ->)]; [split; congruence |].
    assert (density ≠ s) by (intros ->; rewrite Hd1 in Hfresh; rewrite Hfresh in Hd; by destruct Hd).
    split; [done |]. by rewrite lookup_insert_ne. }
  destruct Hs' as [Hns Hd2].
  rewrite iter_diffusion_frame by done.
  unfold copy. destruct (h2 !! density) as [a|] eqn:Ha; [| congruence].
  rewrite lookup_insert_ne by done. congruence.
Qed.

End pressure_theorems.

Lemma diffusion_bounded_witness :
  let result :=
    Asthenosphere.get_asthenosphere_pressure Examples.ring_grid Examples.ring_store
      0 None None in
  ∃ a, result.2 !! result.1 = Some a ∧ length a = 4%nat ∧
       within (field_min 0 (val <$> Examples.ring_density))
              (field_max 0 (val <$> Examples.ring_density)) a.
Proof.
  apply (diffusion_bounded 4 Examples.ring_grid Examples.ring_store 0 None None
           Examples.ring_density).
  - split; [repeat constructor; simpl; lia | reflexivity].
  - intros [|[|[|[|i]]]] Hi; vm_compute; lia.
  - reflexivity.
  - reflexivity.
  - repeat constructor.
  - split; intros l Hl; discriminate Hl.
Defined.

Lemma density_unmodified_witness :
  (Asthenosphere.get_asthenosphere_pressure Examples.ring_grid Examples.ring_store
     0 None None).2 !! 0%nat
  = Examples.ring_store !! 0%nat.
Proof.
  apply density_unmodified; [eexists; reflexivity | discriminate | discriminate].
Defined.

(** * Further properties of the code *)

(** ** The deltas of erosion in closed form *)

Section transfer_closed_form.

Import Erosion.

Lemma move_lookup delta arrow (t : Q) c :
  finite delta → (arrow.1 < length delta)%nat → (arrow.2 < length delta)%nat →
  (c < length delta)%nat →
  ∃ x, move delta arrow (Fin t) !! c = Some (Fin x)
       ∧ x == val (rd delta c)
              + (if decide (arrow.2 = c) then t else 0)
              - (if decide (arrow.1 = c) then t else 0).
Proof.
  intros Hfin Hfrom Hto Hc.
  destruct (finite_lookup _ _ Hfin Hfrom) as [a Ha].
  destruct (finite_lookup _ _ Hfin Hc) as [v Hv].
  unfold move, wr. cbv zeta. rewrite (rd_lookup _ _ _ Ha), (rd_lookup _ _ _ Hv). simpl.
  set (delta1 := <[arrow.1 := Fin (a + - t)]> delta).
  assert (Hfin1 : finite delta1) by (apply Forall_insert; done).
  assert (Hto1 : (arrow.2 < length delta1)%nat) by (unfold delta1; by rewrite length_insert).
  destruct (finite_lookup _ _ Hfin1 Hto1) as [b Hb].
  rewrite (rd_lookup _ _ _ Hb). simpl.
  assert (Hv1 : ∃ v1, delta1 !! c = Some (Fin v1)
                      ∧ v1 == v - (if decide (arrow.1 = c) then t else 0)).
  { unfold delta1. destruct (decide (arrow.1 = c)) as [<- | Hne].
    - rewrite list_lookup_insert_eq by done. eexists. split; [done |].
      rewrite Ha in Hv. injection Hv as ->. lra.
    - rewrite list_lookup_insert_ne by done. exists v. split; [done | lra]. }
  destruct Hv1 as (v1 & Hv1 & Hv1eq).
  destruct (decide (arrow.2 = c)) as [<- | Hne].
  - rewrite list_lookup_insert_eq by done. eexists. split; [done |].
    rewrite Hb in Hv1. injection Hv1 as ->. lra.
  - rewrite list_lookup_insert_ne by done. exists v1. split; [done | lra].
Qed.

(** The loop over the arrows, for one reservoir: every cell ends with what
    it held, plus what the arrows brought, minus what they took. *)
Lemma transfer_pass_closed r water_height timestep crust_scratch edges crust_delta c :
  finite (raster_of r crust_delta) →
  Forall (λ arrow,
    (arrow.1 < length (raster_of r crust_delta))%nat ∧
    (arrow.2 < length (raster_of r crust_delta))%nat ∧
    is_fin (height_transfer water_height timestep arrow
            * rd (raster_of r crust_scratch) arrow.1)%num) edges →
  (c < length (raster_of r crust_delta))%nat →
  let t := carried water_height timestep (raster_of r crust_scratch) in
  ∃ x, raster_of r (foldl (transfer_arrow water_height timestep crust_scratch)
                      crust_delta edges) !! c = Some (Fin x)
       ∧ x == val (rd (raster_of r crust_delta) c) + inflow t c edges - outflow t c edges.
Proof.
  intros Hfin Hedges Hc t. revert crust_delta Hfin Hedges Hc.
  induction edges as [|arrow edges IH]; intros crust_delta Hfin Hedges Hc; simpl.
  - destruct (finite_lookup _ _ Hfin Hc) as [v Hv]. exists v. split; [done |].
    rewrite (rd_lookup _ _ _ Hv). simpl. lra.
  - apply Forall_cons in Hedges as [(Hfrom & Hto & Ht) Hedges].
    set (crust_delta1 := transfer_arrow water_height timestep crust_scratch crust_delta arrow).
    assert (Hraster : raster_of r crust_delta1
                      = move (raster_of r crust_delta) arrow (Fin (t arrow))).
    { unfold crust_delta1. rewrite transfer_arrow_raster. unfold t, carried.
      by rewrite <- (is_fin_val _ Ht). }
    assert (Hlen1 : length (raster_of r crust_delta1) = length (raster_of r crust_delta))
      by (rewrite Hraster; apply length_move).
    destruct (move_balanced _ arrow _ Hfin Hfrom Hto Ht) as [Hfin1 _].
    rewrite <- transfer_arrow_raster in Hfin1. fold crust_delta1 in Hfin1.
    destruct (IH crust_delta1 Hfin1) as (x & Hx & Hxeq).
    { by rewrite Hlen1. }
    { by rewrite Hlen1. }
    exists x. split; [done |]. rewrite Hxeq.
    destruct (move_lookup _ arrow (t arrow) c Hfin Hfrom Hto Hc) as (y & Hy & Hyeq).
    rewrite <- Hraster in Hy. rewrite (rd_lookup _ _ _ Hy). simpl. rewrite Hyeq. lra.
Qed.

Lemma inflow_nonneg t c edges :
  (∀ arrow, arrow ∈ edges → 0 <= t arrow) → 0 <= inflow t c edges.
Proof.
  induction edges as [|arrow edges IH]; intros Ht; simpl; [lra |].
  assert (0 <= inflow t c edges) by (apply IH; intros a Ha; apply Ht; by right).
  destruct (decide (arrow.2 = c)); [| lra].
  assert (0 <= t arrow) by (apply Ht; by left). lra.
Qed.

Lemma outflow_zero t c edges :
  (∀ arrow, arrow ∈ edges → arrow.1 = c → t arrow == 0) → outflow t c edges == 0.
Proof.
  induction edges as [|arrow edges IH]; intros Ht; simpl; [reflexivity |].
  rewrite IH by (intros a Ha; apply Ht; by right).
  destruct (decide (arrow.1 = c)) as [Heq |]; [| lra].
  rewrite (Ht arrow) by (done || by left). lra.
Qed.

Lemma inflow_zero t c edges :
  (∀ arrow, arrow ∈ edges → arrow.2 = c → t arrow == 0) → inflow t c edges == 0.
Proof.
  induction edges as [|arrow edges IH]; intros Ht; simpl; [reflexivity |].
  rewrite IH by (intros a Ha; apply Ht; by right).
  destruct (decide (arrow.2 = c)) as [Heq |]; [| lra].
  rewrite (Ht arrow) by (done || by left). lra.
Qed.

Lemma outflow_nonneg t c edges :
  (∀ arrow, arrow ∈ edges → 0 <= t arrow) → 0 <= outflow t c edges.
Proof.
  induction edges as [|arrow edges IH]; intros Ht; simpl; [lra |].
  assert (0 <= outflow t c edges) by (apply IH; intros a Ha; apply Ht; by right).
  destruct (decide (arrow.1 = c)); [| lra].
  assert (0 <= t arrow) by (apply Ht; by left). lra.
Qed.


End transfer_closed_form.

Section erosion_closed_form.

Import Erosion.


(** The water height of a cell: the height above the sea level, zero at or
    below it. *)
Lemma water_height_lookup displacement (s d : Q) i :
  displacement !! i = Some (Fin d) →
  ∃ w, get_water_height displacement (Fin s) !! i = Some (Fin w)
       ∧ ((0 < d - s ∧ w == d - s) ∨ (d - s <= 0 ∧ w == 0)).
Proof.
  intros Hd. unfold get_water_height, max_scalar, sub_scalar.
  rewrite !list_lookup_fmap, Hd. simpl.
  destruct (match 0 ?= d + - s with Lt => true | _ => false end) eqn:E.
  - exists (d + - s). split; [done |]. left.
    assert (ltb (Fin 0) (Fin (d + - s)) = true) as Hlt by exact E.
    apply ltb_fin in Hlt. split; lra.
  - exists 0. split; [done |]. right.
    assert (ltb (Fin 0) (Fin (d + - s)) = false) as Hlt by exact E.
    apply ltb_fin_false in Hlt. split; lra.
Qed.

(** No height moves along an arrow that does not go down. *)
Lemma height_transfer_uphill displacement (s : Q) timestep arrow (d1 d2 : Q) :
  displacement !! arrow.1 = Some (Fin d1) → displacement !! arrow.2 = Some (Fin d2) →
  d1 <= d2 →
  height_transfer (get_water_height displacement (Fin s)) timestep arrow = zero.
Proof.
  intros H1 H2 Hle.
  destruct (water_height_lookup displacement s d1 _ H1) as (w1 & Hw1 & Hc1).
  destruct (water_height_lookup displacement s d2 _ H2) as (w2 & Hw2 & Hc2).
  unfold height_transfer. cbv zeta.
  rewrite (rd_lookup _ _ _ Hw1), (rd_lookup _ _ _ Hw2).
  change (Fin w1 - Fin w2)%num with (Fin (w1 + - w2)). unfold gtb, zero.
  assert (ltb (Fin 0) (Fin (w1 + - w2)) = false) as ->; [| done].
  apply ltb_fin_false. lra.
Qed.

End erosion_closed_form.

Section erosion_flows.

Import Erosion.

Context (N : nat) (grid : Grid) (displacement : Float32Raster) (sealevel timestep : num)
        (top_crust crust_delta crust_scratch : Crust).
Hypothesis valid :
  valid_input N grid displacement sealevel timestep top_crust crust_delta crust_scratch.

Local Abbreviation water_height := (get_water_height displacement sealevel).
Local Abbreviation outbound := (get_outbound_height_transfer grid water_height timestep).
Local Abbreviation fractions :=
  (foldl (fraction_cell grid top_crust outbound) crust_scratch (seq 0 (length outbound))).

(** The deltas of a reservoir in closed form: what the arrows into the cell
    carry, minus what the arrows out of the cell carry. *)
Lemma erosion_delta_closed r c :
  (c < N)%nat →
  ∃ x, raster_of r (get_erosion grid displacement sealevel timestep
                      top_crust crust_delta crust_scratch).1 !! c = Some (Fin x)
       ∧ x == inflow (carried water_height timestep (raster_of r fractions)) c (arrows grid)
              - outflow (carried water_height timestep (raster_of r fractions)) c (arrows grid).
Proof.
  intros Hc. rewrite erosion_unfold. cbn [fst snd].
  assert (Hlen0 : length (raster_of r (Crust_reset crust_delta)) = N).
  { rewrite reset_raster, length_fill. apply valid. }
  destruct (transfer_pass_closed r water_height timestep fractions (arrows grid)
              (Crust_reset crust_delta) c) as (x & Hx & Hxeq).
  - rewrite reset_raster. apply finite_fill.
  - apply Forall_forall. intros arrow Hin. rewrite Hlen0.
    destruct (grid_ok_arrow N grid arrow (valid_grid _ _ _ _ _ _ _ _ valid) Hin) as [Hfrom Hto].
    destruct (arrow_transfer_finite _ _ _ _ _ _ _ _ valid r arrow Hin) as (q & Hq & _).
    rewrite Hq. done.
  - by rewrite Hlen0.
  - exists x. split; [done |]. rewrite Hxeq.
    assert (rd (raster_of r (Crust_reset crust_delta)) c = zero) as ->.
    { apply rd_lookup. rewrite reset_raster. unfold fill. apply lookup_replicate_2.
      by rewrite (valid_crust_delta _ _ _ _ _ _ _ _ valid r). }
    simpl. lra.
Qed.

(** With a time step that is not negative, no arrow carries a negative
    amount. *)
Lemma carried_nonneg r arrow :
  nonnegb timestep = true → arrow ∈ arrows grid →
  0 <= carried water_height timestep (raster_of r fractions) arrow.
Proof.
  intros Ht Hin. unfold carried.
  destruct (grid_ok_arrow N grid arrow (valid_grid _ _ _ _ _ _ _ _ valid) Hin) as [Hfrom Hto].
  pose proof (arrow_fraction_unit _ _ _ _ _ _ _ _ valid r arrow Hin) as Hf.
  destruct (rd (raster_of r fractions) arrow.1) as [f| | |]; try done. simpl in Hf.
  assert (Hfin : is_fin timestep) by (by destruct timestep).
  assert (Hpos : 0 <= val timestep).
  { destruct timestep as [t| | |]; try done. simpl in *. by apply Qle_bool_iff. }
  destruct (height_transfer_finite water_height (val timestep) arrow)
    as (h & Hh & Hh0 & _).
  { apply (finite_water_height _ _ _ _ _ _ _ _ valid). }
  { by rewrite (length_water_height _ _ _ _ _ _ _ _ valid). }
  { by rewrite (length_water_height _ _ _ _ _ _ _ _ valid). }
  rewrite <- (is_fin_val timestep Hfin) in Hh. rewrite Hh. simpl.
  apply Qmult_le_0_compat; [by apply Hh0 | lra].
Qed.

(** An arrow that does not go down carries nothing. *)
Lemma carried_uphill r arrow :
  arrow ∈ arrows grid →
  val (rd displacement arrow.1) <= val (rd displacement arrow.2) →
  carried water_height timestep (raster_of r fractions) arrow == 0.
Proof.
  intros Hin Hle. unfold carried.
  destruct (grid_ok_arrow N grid arrow (valid_grid _ _ _ _ _ _ _ _ valid) Hin) as [Hfrom Hto].
  pose proof (arrow_fraction_unit _ _ _ _ _ _ _ _ valid r arrow Hin) as Hf.
  destruct (rd (raster_of r fractions) arrow.1) as [f| | |]; try done.
  pose proof (valid_displacement _ _ _ _ _ _ _ _ valid) as Hfin.
  pose proof (valid_cells _ _ _ _ _ _ _ _ valid) as Hcells.
  destruct (finite_lookup displacement arrow.1 Hfin) as [d1 H1]; [by rewrite Hcells |].
  destruct (finite_lookup displacement arrow.2 Hfin) as [d2 H2]; [by rewrite Hcells |].
  rewrite (rd_lookup _ _ _ H1), (rd_lookup _ _ _ H2) in Hle. simpl in Hle.
  pose proof (valid_sealevel _ _ _ _ _ _ _ _ valid) as Hs.
  rewrite (is_fin_val sealevel Hs).
  rewrite (height_transfer_uphill displacement (val sealevel) timestep arrow d1 d2 H1 H2 Hle).
  simpl. ring.
Qed.

End erosion_flows.

(** ** Where erosion moves material *)

Section erosion_direction.

Import Erosion.

(** X1. Downhill-only flow, seen from a sink: with a time step that is not
    negative, a cell none of whose neighbours is lower receives material and
    gives none: its delta is not negative in any of the four reservoirs. *)
Theorem sink_only_gains N grid displacement sealevel timestep
    top_crust crust_delta crust_scratch r c :
  valid_input N grid displacement sealevel timestep top_crust crust_delta crust_scratch →
  nonnegb timestep = true →
  (c < N)%nat →
  Forall (λ arrow, arrow.1 = c →
                   val (rd displacement c) <= val (rd displacement arrow.2)) (arrows grid) →
  ∃ x, raster_of r (get_erosion grid displacement sealevel timestep
                      top_crust crust_delta crust_scratch).1 !! c = Some (Fin x)
       ∧ 0 <= x.
Proof.
  intros valid Ht Hc Hsink.
  destruct (erosion_delta_closed _ _ _ _ _ _ _ _ valid r c Hc) as (x & Hx & Hxeq).
  exists x. split; [done |]. rewrite Hxeq.
  rewrite outflow_zero.
  - match goal with
    | |- 0 <= inflow ?t c ?edges - 0 =>
        assert (0 <= inflow t c edges); [| lra]
    end.
    apply inflow_nonneg. intros arrow Hin.
    by apply (carried_nonneg _ _ _ _ _ _ _ _ valid).
  - intros arrow Hin Heq. apply (carried_uphill _ _ _ _ _ _ _ _ valid); [done |].
    rewrite Heq. apply (proj1 (Forall_forall _ _) Hsink arrow Hin Heq).
Qed.

(** X2. Downhill-only flow, seen from a peak: with a time step that is not
    negative, a cell none of whose neighbours is higher gives material and
    receives none: its delta is not positive in any of the four
    reservoirs. *)
Theorem peak_only_loses N grid displacement sealevel timestep
    top_crust crust_delta crust_scratch r c :
  valid_input N grid displacement sealevel timestep top_crust crust_delta crust_scratch →
  nonnegb timestep = true →
  (c < N)%nat →
  Forall (λ arrow, arrow.2 = c →
                   val (rd displacement arrow.1) <= val (rd displacement c)) (arrows grid) →
  ∃ x, raster_of r (get_erosion grid displacement sealevel timestep
                      top_crust crust_delta crust_scratch).1 !! c = Some (Fin x)
       ∧ x <= 0.
Proof.
  intros valid Ht Hc Hpeak.
  destruct (erosion_delta_closed _ _ _ _ _ _ _ _ valid r c Hc) as (x & Hx & Hxeq).
  exists x. split; [done |]. rewrite Hxeq.
  rewrite inflow_zero.
  - match goal with
    | |- 0 - outflow ?t c ?edges <= 0 =>
        assert (0 <= outflow t c edges); [| lra]
    end.
    apply outflow_nonneg. intros arrow Hin.
    by apply (carried_nonneg _ _ _ _ _ _ _ _ valid).
  - intros arrow Hin Heq. apply (carried_uphill _ _ _ _ _ _ _ _ valid); [done |].
    rewrite Heq. apply (proj1 (Forall_forall _ _) Hpeak arrow Hin Heq).
Qed.

(** X3. No slope, no erosion: when no arrow of the grid goes down (level
    ground), every delta of every reservoir is zero, whatever the time step
    and the reservoirs. *)
Theorem level_ground_no_erosion N grid displacement sealevel timestep
    top_crust crust_delta crust_scratch r c :
  valid_input N grid displacement sealevel timestep top_crust crust_delta crust_scratch →
  (c < N)%nat →
  Forall (λ arrow, val (rd displacement arrow.1) <= val (rd displacement arrow.2))
         (arrows grid) →
  ∃ x, raster_of r (get_erosion grid displacement sealevel timestep
                      top_crust crust_delta crust_scratch).1 !! c = Some (Fin x)
       ∧ x == 0.
Proof.
  intros valid Hc Hlevel.
  destruct (erosion_delta_closed _ _ _ _ _ _ _ _ valid r c Hc) as (x & Hx & Hxeq).
  exists x. split; [done |]. rewrite Hxeq.
  rewrite inflow_zero, outflow_zero; [lra | |];
    intros arrow Hin _; apply (carried_uphill _ _ _ _ _ _ _ _ valid); [done | | done |];
    apply (proj1 (Forall_forall _ _) Hlevel arrow Hin).
Qed.

End erosion_direction.

(** Discharges a condition on every arrow of a concrete grid. *)
Ltac each_arrow_by_evaluation :=
  repeat constructor;
  try (intros E; try discriminate E); vm_compute; discriminate.

Lemma sink_only_gains_witness :
  ∃ x, raster_of Sediment
         (Erosion.get_erosion Examples.ring_grid Examples.ring_displacement zero one
            Examples.ring_crust (Examples.empty_crust 4) (Examples.empty_crust 4)).1 !! 3%nat
       = Some (Fin x) ∧ 0 <= x.
Proof.
  apply (sink_only_gains 4);
    [valid_input_by_evaluation | reflexivity | lia | each_arrow_by_evaluation].
Defined.

Lemma peak_only_loses_witness :
  ∃ x, raster_of Sediment
         (Erosion.get_erosion Examples.ring_grid Examples.ring_displacement zero one
            Examples.ring_crust (Examples.empty_crust 4) (Examples.empty_crust 4)).1 !! 0%nat
       = Some (Fin x) ∧ x <= 0.
Proof.
  apply (peak_only_loses 4);
    [valid_input_by_evaluation | reflexivity | lia | each_arrow_by_evaluation].
Defined.

Lemma level_ground_no_erosion_witness :
  ∃ x, raster_of Sediment
         (Erosion.get_erosion Examples.pair_grid (Examples.flat_displacement 2) zero one
            (Examples.flat_crust 2) (Examples.empty_crust 2) (Examples.empty_crust 2)).1
         !! 0%nat
       = Some (Fin x) ∧ x == 0.
Proof.
  apply (level_ground_no_erosion 2);
    [valid_input_by_evaluation | lia | each_arrow_by_evaluation].
Defined.

(** ** Sediment is never overdrawn *)

Section sediment_bound.

Import Erosion.




End sediment_bound.

Section sediment_theorem.

Import Erosion.


End sediment_theorem.


(** ** The outbound fractions and the scratch bundle *)

Section fraction_theorems.

Import Erosion.



(** The third loop reads the bundle of fractions at the sources of the
    arrows only. *)
Lemma transfer_arrow_ext water_height timestep scratch1 scratch2 crust_delta arrow :
  (∀ r, rd (raster_of r scratch1) arrow.1 = rd (raster_of r scratch2) arrow.1) →
  transfer_arrow water_height timestep scratch1 crust_delta arrow
  = transfer_arrow water_height timestep scratch2 crust_delta arrow.
Proof.
  intros Hrd.
  pose proof (Hrd Sediment) as H1. pose proof (Hrd Sedimentary) as H2.
  pose proof (Hrd Metamorphic) as H3. pose proof (Hrd Sial) as H4.
  cbn [raster_of] in H1, H2, H3, H4.
  unfold transfer_arrow. by rewrite H1, H2, H3, H4.
Qed.

Lemma transfer_pass_ext water_height timestep scratch1 scratch2 edges crust_delta :
  Forall (λ arrow, ∀ r, rd (raster_of r scratch1) arrow.1
                        = rd (raster_of r scratch2) arrow.1) edges →
  foldl (transfer_arrow water_height timestep scratch1) crust_delta edges
  = foldl (transfer_arrow water_height timestep scratch2) crust_delta edges.
Proof.
  intros Hedges. revert crust_delta.
  induction Hedges as [|arrow edges Harrow _ IH]; intros crust_delta; simpl; [done |].
  by rewrite (transfer_arrow_ext _ _ scratch1 scratch2 _ _ Harrow), IH.
Qed.

(** What the second loop writes at a cell is the same for two bundles of
    the same shape. *)
Lemma fraction_cell_same_shape grid top_crust outbound_height_transfer scratch1 scratch2 r i :
  (∀ r', length (raster_of r' scratch1) = length (raster_of r' scratch2)) →
  raster_of r (fraction_cell grid top_crust outbound_height_transfer scratch1 i) !! i
  = raster_of r (fraction_cell grid top_crust outbound_height_transfer scratch2 i) !! i.
Proof.
  intros Hshape.
  destruct r; simpl; unfold wr; apply insert_lookup_same_length;
    [ apply (Hshape Sediment) | apply (Hshape Sedimentary)
    | apply (Hshape Metamorphic) | apply (Hshape Sial) ].
Qed.

(** X6. The scratch bundle is scratch: when the source of every arrow is a
    cell of the grid, the deltas of [get_erosion] do not depend on what the
    rasters of [crust_scratch] held at the call; two scratch bundles of the
    same shape give the same deltas. *)
Theorem deltas_independent_of_scratch grid displacement sealevel timestep
    top_crust crust_delta scratch1 scratch2 :
  Forall (λ arrow, arrow.1 < length displacement)%nat (arrows grid) →
  (∀ r, length (raster_of r scratch1) = length (raster_of r scratch2)) →
  (get_erosion grid displacement sealevel timestep top_crust crust_delta scratch1).1
  = (get_erosion grid displacement sealevel timestep top_crust crust_delta scratch2).1.
Proof.
  intros Hsources Hshape. rewrite !erosion_unfold. cbn [fst snd].
  set (outbound := get_outbound_height_transfer grid
                     (get_water_height displacement sealevel) timestep).
  assert (Hcells : length outbound = length displacement).
  { unfold outbound. by rewrite length_get_outbound_height_transfer, length_get_water_height. }
  apply transfer_pass_ext.
  eapply Forall_impl; [exact Hsources |]. intros arrow Hfrom r. cbv beta in Hfrom.
  unfold rd. f_equal.
  rewrite !fraction_pass_lookup by (by rewrite Hcells).
  by apply fraction_cell_same_shape.
Qed.

End fraction_theorems.


Lemma deltas_independent_of_scratch_witness :
  (Erosion.get_erosion Examples.ring_grid Examples.ring_displacement zero one
     Examples.ring_crust (Examples.empty_crust 4) (Examples.stale_crust 4)).1
  = (Erosion.get_erosion Examples.ring_grid Examples.ring_displacement zero one
       Examples.ring_crust (Examples.empty_crust 4) (Examples.empty_crust 4)).1.
Proof.
  apply deltas_independent_of_scratch;
    [repeat constructor; simpl; lia | intros []; reflexivity].
Defined.

(** ** Isostasy: signs, degenerate mantle density, missing cells *)

Section displacement_theorems.





(** X10. The loop runs over the cells of [displacement]: the result has as
    many cells as [displacement] had, and a cell for which the thickness or
    the density raster has no value holds NaN. *)
Theorem displacement_cells thickness density mantleDensity displacement (i : nat) :
  (i < length displacement)%nat →
  (length thickness <= i)%nat ∨ (length density <= i)%nat →
  length (get_displacement thickness density mantleDensity displacement)
  = length displacement
  ∧ get_displacement thickness density mantleDensity displacement !! i = Some NaN.
Proof.
  intros Hi Hmissing. split.
  - unfold get_displacement. cbv zeta.
    generalize (length displacement) at 1. intros n.
    induction n as [|n IH]; [done |].
    rewrite seq_S, foldl_app. simpl. unfold wr. by rewrite length_insert.
  - unfold get_displacement. cbv zeta. rewrite displacement_loop_lookup by done.
    f_equal. destruct Hmissing as [Hlen | Hlen].
    + unfold rd at 1 2. rewrite (lookup_ge_None_2 thickness i Hlen). done.
    + unfold rd at 3. rewrite (lookup_ge_None_2 density i Hlen). simpl.
      destruct (rd thickness i); done.
Qed.

End displacement_theorems.




Lemma displacement_cells_witness :
  length (get_displacement [Fin 35000] [Fin 2700; Fin 2890] (Fin 3300) [zero; zero])
  = length [zero; zero]
  ∧ get_displacement [Fin 35000] [Fin 2700; Fin 2890] (Fin 3300) [zero; zero] !! 1%nat
    = Some NaN.
Proof.
  apply displacement_cells; [simpl; lia | left; simpl; lia].
Defined.

(** ** Plate map: the whole post-processing *)

Section plate_map_theorems.

Import PlateMap.
Local Open Scope Z_scope.

Context {VectorRaster : Type}.
Context (Uint8Raster_new : VectorRaster → Uint8Raster).
Context (image_segmentation : VectorRaster → nat → nat → Uint8Raster → Uint8Raster).
Context (unique : Uint8Raster → list Z).
Context (dilation closing : Uint8Raster → Z → Uint8Raster).

Lemma length_plate_step segments q :
  length (plate_step dilation closing segments q) = length segments.
Proof. unfold plate_step, fill_into_selection. cbv zeta. by rewrite length_imap. Qed.

(** X11. The unlabelled id is inert: the step of the loop for the plate id 0
    (which the list of ids holds as soon as a cell is unlabelled) changes no
    label, whatever the dilation and the closing do. *)
Theorem plate_step_zero_inert segments :
  plate_step dilation closing segments 0 = segments.
Proof.
  apply list_eq. intros i.
  destruct (segments !! i) as [p|] eqn:Hp.
  - rewrite (plate_step_lookup dilation closing _ _ _ _ Hp).
    destruct (decide (cleaned_segment dilation closing segments 0 !! i = Some 1)) as [Hm |];
      [| done].
    destruct (cleaned_segment_spares dilation closing _ _ _ _ Hp Hm); by subst.
  - apply lookup_ge_None_2. rewrite length_plate_step. by apply lookup_ge_None_1.
Qed.

(** The loop changes a label only from 0, and only to one of the ids of the
    list. *)
Lemma plate_loop_labels plate_ids segments (i : nat) v :
  foldl (plate_step dilation closing) segments plate_ids !! i = Some v →
  segments !! i = Some v ∨ (segments !! i = Some 0 ∧ v ∈ plate_ids).
Proof.
  revert segments. induction plate_ids as [|q plate_ids IH]; intros segments Hv; simpl in Hv.
  - by left.
  - destruct (IH _ Hv) as [Hstep | [Hstep Hin]].
    + destruct (segments !! i) as [p|] eqn:Hp.
      * rewrite (plate_step_lookup dilation closing _ _ _ _ Hp) in Hstep.
        destruct (decide (cleaned_segment dilation closing segments q !! i = Some 1))
          as [Hm |]; [| by left].
        injection Hstep as <-.
        destruct (cleaned_segment_spares dilation closing _ _ _ _ Hp Hm) as [-> | ->].
        -- right. split; [done | by left].
        -- by left.
      * apply lookup_lt_Some in Hstep. rewrite length_plate_step in Hstep.
        apply lookup_ge_None_1 in Hp. lia.
    + destruct (segments !! i) as [p|] eqn:Hp.
      * rewrite (plate_step_lookup dilation closing _ _ _ _ Hp) in Hstep.
        destruct (decide (cleaned_segment dilation closing segments q !! i = Some 1))
          as [Hm |].
        -- injection Hstep as Hq.
           destruct (cleaned_segment_spares dilation closing _ _ _ _ Hp Hm) as [-> | ->].
           ++ right. split; [done | by right].
           ++ right. split; [by rewrite Hq | by right].
        -- injection Hstep as ->. right. split; [done | by right].
      * apply lookup_lt_Some in Hstep. rewrite length_plate_step in Hstep.
        apply lookup_ge_None_1 in Hp. lia.
Qed.

(** X12. Plates are never taken from: a cell that the segmentation labelled
    with a plate (a label other than 0) has the same label in the plate map
    that [get_plate_map] returns, whatever the order of the ids. *)
Theorem plate_map_keeps_plates vector_field segment_num min_segment_size segments
    (i : nat) p :
  image_segmentation vector_field segment_num min_segment_size
    (default (Uint8Raster_new vector_field) segments) !! i = Some p →
  p ≠ 0 →
  get_plate_map Uint8Raster_new image_segmentation unique dilation closing
    vector_field segment_num min_segment_size segments !! i = Some p.
Proof.
  intros Hp H0. unfold get_plate_map. cbv zeta.
  by apply plate_loop_keeps_labels.
Qed.

(** X13. The post-processing only labels unlabelled cells: a cell of the
    plate map whose label differs from the one the segmentation gave it was
    unlabelled (0) and now carries one of the listed plate ids. *)
Theorem plate_map_fills_gaps_only vector_field segment_num min_segment_size segments
    (i : nat) v :
  get_plate_map Uint8Raster_new image_segmentation unique dilation closing
    vector_field segment_num min_segment_size segments !! i = Some v →
  let labels := image_segmentation vector_field segment_num min_segment_size
                  (default (Uint8Raster_new vector_field) segments) in
  labels !! i = Some v ∨ (labels !! i = Some 0 ∧ v ∈ unique labels).
Proof.
  unfold get_plate_map. cbv zeta. apply plate_loop_labels.
Qed.

End plate_map_theorems.

Lemma plate_map_keeps_plates_witness :
  PlateMap.get_plate_map no_labels given_segmentation distinct_values
    greedy_dilation idle_closing tt 2%nat 1%nat (Some [1; 0; 2; 2; 0]%Z) !! 2%nat
  = Some 2%Z.
Proof.
  apply (plate_map_keeps_plates no_labels given_segmentation distinct_values);
    [reflexivity | lia].
Defined.

Lemma plate_map_fills_gaps_only_witness :
  let labels := given_segmentation tt 2%nat 1%nat (default (no_labels tt)
                                                      (Some [1; 0; 2; 2; 0]%Z)) in
  labels !! 1%nat = Some 1%Z ∨ (labels !! 1%nat = Some 0%Z ∧ (1%Z ∈ distinct_values labels)).
Proof.
  apply (plate_map_fills_gaps_only no_labels given_segmentation distinct_values
           greedy_dilation idle_closing tt 2%nat 1%nat (Some [1; 0; 2; 2; 0]%Z) 1%nat 1%Z).
  reflexivity.
Defined.

Example get_plate_map_greedy :
  PlateMap.get_plate_map no_labels given_segmentation distinct_values
    greedy_dilation idle_closing tt 2%nat 1%nat (Some [1; 0; 2; 2; 0]%Z)
  = [1; 1; 2; 2; 1]%Z.
Proof. reflexivity. Qed.

(** ** Weathering *)

Section weathering_facts.

Import Weathering.

Lemma min_fin (x y : Q) :
  ∃ z, JS.min (Fin x) (Fin y) = Fin z ∧ z <= x ∧ z <= y ∧ (z == x ∨ z == y).
Proof.
  unfold JS.min. destruct (ltb (Fin x) (Fin y)) eqn:E.
  - apply ltb_fin in E. exists x. repeat split; [lra | lra | left; reflexivity].
  - apply ltb_fin_false in E. exists y. repeat split; [lra | lra | right; reflexivity].
Qed.

Lemma max_fin (x y : Q) :
  ∃ z, JS.max (Fin x) (Fin y) = Fin z ∧ x <= z ∧ y <= z ∧ (z == x ∨ z == y).
Proof.
  unfold JS.max. destruct (ltb (Fin y) (Fin x)) eqn:E.
  - apply ltb_fin in E. exists x. repeat split; [lra | lra | left; reflexivity].
  - apply ltb_fin_false in E. exists y. repeat split; [lra | lra | right; reflexivity].
Qed.

Lemma field_op_lookup f (field1 field2 : Float32Raster) (i : nat) x y :
  field1 !! i = Some x → field2 !! i = Some y →
  field_op f field1 field2 !! i = Some (f x y).
Proof.
  intros H1 H2. unfold field_op. rewrite list_lookup_imap, H1. simpl.
  by rewrite (rd_lookup _ _ _ H2).
Qed.

Lemma into_lookup (result values : Float32Raster) (i : nat) v :
  (i < length result)%nat → values !! i = Some v → into result values !! i = Some v.
Proof.
  intros Hi Hv. unfold into. rewrite list_lookup_imap.
  destruct (lookup_lt_is_Some_2 result i Hi) as [old ->]. simpl. by rewrite Hv.
Qed.

Context (average_difference : Float32Raster → Float32Raster).
Context (displacement : Float32Raster) (sealevel timestep : num)
        (top_crust crust_delta : Crust) (i : nat) (a sed s1 s2 s3 : Q).
Hypothesis input :
  weathering_input average_difference displacement sealevel timestep
    top_crust crust_delta i a sed s1 s2 s3.

Lemma get_weathering_unfold :
  get_weathering average_difference displacement sealevel timestep top_crust crust_delta
  = everything_mult_scalar
      {| sediment :=
           into (sediment crust_delta)
             (mult_scalar (weathering_of average_difference displacement sealevel
                             timestep top_crust) (Fin (-1)));
         sedimentary :=
           into (sedimentary crust_delta)
             (mult_field (sedimentary top_crust)
                (ratio_of average_difference displacement sealevel timestep top_crust));
         metamorphic :=
           into (metamorphic crust_delta)
             (mult_field (metamorphic top_crust)
                (ratio_of average_difference displacement sealevel timestep top_crust));
         sial :=
           into (sial crust_delta)
             (mult_field (sial top_crust)
                (ratio_of average_difference displacement sealevel timestep top_crust));
         sima := fill (sima crust_delta) zero |}
      (Fin (-1)).
Proof. reflexivity. Qed.

(** The rock of the cell. *)
Lemma conserved_cell :
  ∃ c, conserved_of displacement top_crust !! i = Some (Fin c) ∧ c == s1 + s2 + s3.
Proof.
  destruct input as [Hi _ _ _ H1 H2 H3 _]. unfold conserved_of, add_field.
  exists (0 + s1 + s2 + s3). split; [| ring].
  change (Fin (0 + s1 + s2 + s3)) with (zero + Fin s1 + Fin s2 + Fin s3)%num.
  apply field_op_lookup; [| exact H3].
  apply field_op_lookup; [| exact H2].
  apply field_op_lookup; [| exact H1].
  by apply lookup_replicate_2.
Qed.

(** The exposure of the bedrock of the cell: between 0 and 1, and 0 under
    a metre of sediment or more. *)
Lemma exposure_cell :
  ∃ e, exposure_of top_crust !! i = Some (Fin e)
       ∧ 0 <= e <= 1 ∧ (1 <= sed → e == 0).
Proof.
  destruct input as [_ _ _ Hsed _ _ _ _].
  assert (Hlookup : exposure_of top_crust !! i
                    = Some (JS.min (JS.max (Fin (sed / -1 + 1)) (Fin 0)) (Fin 1))).
  { unfold exposure_of, min_scalar, max_scalar, add_scalar, div_scalar.
    by rewrite !list_lookup_fmap, Hsed. }
  destruct (max_fin (sed / -1 + 1) 0) as (m & Hm & Hm1 & Hm2 & Hm3).
  rewrite Hm in Hlookup.
  destruct (min_fin m 1) as (e & He & He1 & He2 & He3).
  rewrite He in Hlookup. exists e. split; [done |].
  assert (Hdiv : sed / -1 == - sed) by (field).
  split; [split |].
  - destruct He3 as [-> | ->]; lra.
  - done.
  - intros Hcov. destruct Hm3 as [Hm3 | Hm3]; destruct He3 as [He3 | He3]; lra.
Qed.

(** The height that weathers in the cell: not negative, at most the rock
    of the cell, and zero under a metre of sediment or more. *)
Lemma weathering_cell :
  ∃ w, weathering_of average_difference displacement sealevel timestep top_crust !! i
       = Some (Fin w)
       ∧ 0 <= w ∧ (0 <= s1 + s2 + s3 → w <= s1 + s2 + s3) ∧ (1 <= sed → w == 0).
Proof.
  destruct conserved_cell as (c & Hc & Hceq).
  destruct exposure_cell as (e & He & He01 & Hecov).
  destruct input as [_ Had Ht _ _ _ _ _].
  destruct timestep as [t| | |]; try done.
  set (k := 18 # 100000000).
  set (x := a * (k * 780000 * t * (98 # 10) / (98 # 10)) * e).
  destruct (min_fin x c) as (mn & Hmn & Hmn1 & Hmn2 & Hmn3).
  destruct (max_fin mn 0) as (w & Hw & Hw1 & Hw2 & Hw3).
  exists w. split.
  - rewrite <- Hw, <- Hmn.
    unfold weathering_of, max_scalar at 1. rewrite list_lookup_fmap.
    unfold min_field.
    rewrite (field_op_lookup JS.min _ _ i (Fin x) (Fin c)); [reflexivity | | exact Hc].
    unfold mult_field.
    change (Fin x)
      with (Fin a * (Fin k * Fin 780000 * Fin t * Fin (98 # 10) / Fin (98 # 10)) * Fin e)%num.
    apply field_op_lookup; [| exact He].
    unfold mult_scalar. by rewrite list_lookup_fmap, Had.
  - split; [lra |]. split.
    + intros Hc0. destruct Hw3 as [Hw3 | Hw3]; lra.
    + intros Hcov. assert (Hx : x == 0) by (unfold x; rewrite (Hecov Hcov); ring).
      destruct Hw3 as [Hw3 | Hw3]; lra.
Qed.

(** The ratio of the rock of the cell that is converted: zero when the cell
    holds less than 0.01 of rock, the height that weathers over the rock
    otherwise. *)
Lemma ratio_cell (w c : Q) :
  weathering_of average_difference displacement sealevel timestep top_crust !! i
  = Some (Fin w) →
  conserved_of displacement top_crust !! i = Some (Fin c) →
  ∃ ρ, ratio_of average_difference displacement sealevel timestep top_crust !! i
       = Some (Fin ρ)
       ∧ ((c < 1 # 100 ∧ ρ == 0) ∨ (1 # 100 <= c ∧ ρ == w / c)).
Proof.
  intros Hw Hc. unfold ratio_of, fill_into_selection, lt_scalar.
  rewrite list_lookup_imap. unfold div_field.
  rewrite (field_op_lookup div _ _ _ _ _ Hw Hc). cbn [fmap option_fmap option_map].
  rewrite list_lookup_fmap, Hc. cbn [fmap option_fmap option_map].
  destruct (ltb (Fin c) (Fin (1 # 100))) eqn:E.
  - apply ltb_fin in E. rewrite decide_True by done.
    exists 0. split; [done |]. left. split; [done | reflexivity].
  - apply ltb_fin_false in E. rewrite decide_False by discriminate.
    exists (w / c). split.
    + simpl. assert (sgn c = Lt) as -> by (apply sgn_Lt; lra). done.
    + right. split; [done | reflexivity].
Qed.

(** The deltas of the cell. *)
Lemma weathering_deltas :
  ∃ w ρ,
    sediment (get_weathering average_difference displacement sealevel timestep
                top_crust crust_delta) !! i = Some (Fin (w * -1 * -1))
    ∧ sedimentary (get_weathering average_difference displacement sealevel timestep
                     top_crust crust_delta) !! i = Some (Fin (s1 * ρ * -1))
    ∧ metamorphic (get_weathering average_difference displacement sealevel timestep
                     top_crust crust_delta) !! i = Some (Fin (s2 * ρ * -1))
    ∧ sial (get_weathering average_difference displacement sealevel timestep
              top_crust crust_delta) !! i = Some (Fin (s3 * ρ * -1))
    ∧ 0 <= w ∧ (0 <= s1 + s2 + s3 → w <= s1 + s2 + s3) ∧ (1 <= sed → w == 0)
    ∧ ((s1 + s2 + s3 < 1 # 100 ∧ ρ == 0)
       ∨ (1 # 100 <= s1 + s2 + s3 ∧ ρ == w / (s1 + s2 + s3))).
Proof.
  destruct weathering_cell as (w & Hw & Hw0 & Hwc & Hwcov).
  destruct conserved_cell as (c & Hc & Hceq).
  destruct (ratio_cell w c Hw Hc) as (ρ & Hρ & Hcases).
  destruct input as [_ _ _ _ H1 H2 H3 Hdelta].
  exists w, ρ. rewrite get_weathering_unfold.
  cbn [everything_mult_scalar sediment sedimentary metamorphic sial].
  unfold mult_scalar at 1 3 4 5. rewrite !list_lookup_fmap.
  rewrite (into_lookup (sediment crust_delta) _ i (Fin w * Fin (-1))%num (Hdelta Sediment));
    [| unfold mult_scalar; by rewrite list_lookup_fmap, Hw].
  rewrite (into_lookup (sedimentary crust_delta) _ i (Fin s1 * Fin ρ)%num (Hdelta Sedimentary));
    [| by apply field_op_lookup].
  rewrite (into_lookup (metamorphic crust_delta) _ i (Fin s2 * Fin ρ)%num (Hdelta Metamorphic));
    [| by apply field_op_lookup].
  rewrite (into_lookup (sial crust_delta) _ i (Fin s3 * Fin ρ)%num (Hdelta Sial));
    [| by apply field_op_lookup].
  repeat (split; [reflexivity || done |]).
  destruct Hcases as [[Hlt Hz] | [Hge Hr]].
  - left. split; [lra | done].
  - right. split; [lra |]. rewrite Hr. by rewrite Hceq.
Qed.

End weathering_facts.

Section weathering_theorems.

Import Weathering.

Context (average_difference : Float32Raster → Float32Raster).

(** X14. Weathering converts rock to sediment: in a cell that holds at least
    0.01 of rock (sedimentary, metamorphic and sial together), the four
    deltas of [get_weathering] add up to zero: what the sediment gains is
    what the three rocks lose. *)
Theorem weathering_conserves_mass displacement sealevel timestep top_crust crust_delta
    (i : nat) (a sed s1 s2 s3 : Q) :
  weathering_input average_difference displacement sealevel timestep
    top_crust crust_delta i a sed s1 s2 s3 →
  1 # 100 <= s1 + s2 + s3 →
  let delta := get_weathering average_difference displacement sealevel timestep
                 top_crust crust_delta in
  ∃ ds d1 d2 d3,
    sediment delta !! i = Some (Fin ds) ∧ sedimentary delta !! i = Some (Fin d1)
    ∧ metamorphic delta !! i = Some (Fin d2) ∧ sial delta !! i = Some (Fin d3)
    ∧ ds + d1 + d2 + d3 == 0.
Proof.
  intros input Hrock delta.
  destruct (weathering_deltas _ _ _ _ _ _ _ _ _ _ _ _ input)
    as (w & ρ & Hds & Hd1 & Hd2 & Hd3 & _ & _ & _ & Hcases).
  do 4 eexists. repeat (split; [eassumption |]).
  destruct Hcases as [[Hlt _] | [_ Hr]]; [lra |].
  rewrite Hr. field. lra.
Qed.


(** X16. Covered bedrock does not weather: in a cell that lies under a
    metre of sediment or more, the four deltas of [get_weathering] are
    zero. *)
Theorem covered_bedrock_does_not_weather displacement sealevel timestep top_crust
    crust_delta (i : nat) (a sed s1 s2 s3 : Q) :
  weathering_input average_difference displacement sealevel timestep
    top_crust crust_delta i a sed s1 s2 s3 →
  1 <= sed →
  let delta := get_weathering average_difference displacement sealevel timestep
                 top_crust crust_delta in
  ∃ ds d1 d2 d3,
    sediment delta !! i = Some (Fin ds) ∧ sedimentary delta !! i = Some (Fin d1)
    ∧ metamorphic delta !! i = Some (Fin d2) ∧ sial delta !! i = Some (Fin d3)
    ∧ ds == 0 ∧ d1 == 0 ∧ d2 == 0 ∧ d3 == 0.
Proof.
  intros input Hcov delta.
  destruct (weathering_deltas _ _ _ _ _ _ _ _ _ _ _ _ input)
    as (w & ρ & Hds & Hd1 & Hd2 & Hd3 & _ & _ & Hw & Hcases).
  specialize (Hw Hcov).
  do 4 eexists. repeat (split; [eassumption |]).
  assert (Hρ : ρ == 0).
  { destruct Hcases as [[_ ->] | [Hge ->]]; [reflexivity |]. rewrite Hw. field. lra. }
  rewrite Hw, Hρ. repeat split; ring.
Qed.


End weathering_theorems.

(** Discharges [weathering_input] on a concrete input. *)
Ltac weathering_input_by_evaluation :=
  constructor;
  [ simpl; lia | reflexivity | exact I | reflexivity | reflexivity | reflexivity
  | reflexivity | intros []; simpl; lia ].

Lemma weathering_conserves_mass_witness :
  let delta := Weathering.get_weathering Examples.own_height
                 Examples.weathering_displacement zero one
                 Examples.weathering_crust (Examples.stale_crust 2) in
  ∃ ds d1 d2 d3,
    sediment delta !! 0%nat = Some (Fin ds) ∧ sedimentary delta !! 0%nat = Some (Fin d1)
    ∧ metamorphic delta !! 0%nat = Some (Fin d2) ∧ sial delta !! 0%nat = Some (Fin d3)
    ∧ ds + d1 + d2 + d3 == 0.
Proof.
  apply (weathering_conserves_mass Examples.own_height _ _ _ _ _ 0%nat 1000 0 100 200 30000);
    [weathering_input_by_evaluation | vm_compute; discriminate].
Defined.


Lemma covered_bedrock_does_not_weather_witness :
  let delta := Weathering.get_weathering Examples.own_height
                 Examples.weathering_displacement zero one
                 Examples.weathering_crust (Examples.stale_crust 2) in
  ∃ ds d1 d2 d3,
    sediment delta !! 1%nat = Some (Fin ds) ∧ sedimentary delta !! 1%nat = Some (Fin d1)
    ∧ metamorphic delta !! 1%nat = Some (Fin d2) ∧ sial delta !! 1%nat = Some (Fin d3)
    ∧ ds == 0 ∧ d1 == 0 ∧ d2 == 0 ∧ d3 == 0.
Proof.
  apply (covered_bedrock_does_not_weather Examples.own_height _ _ _ _ _ 1%nat
           1000 2 100 200 30000);
    [weathering_input_by_evaluation | vm_compute; discriminate].
Defined.


(** On the thin rock of the example the sediment gains 0.005 while no rock
    is withdrawn. *)
Example thin_rock_gains_sediment :
  (rd (sediment (Weathering.get_weathering Examples.own_height
                   Examples.weathering_displacement zero one
                   Examples.thin_rock_crust (Examples.stale_crust 2))) 0
   ≃ Fin (5 # 1000))%num.
Proof. vm_compute. reflexivity. Qed.

(** ** Asthenosphere pressure: what the call computes *)

Section pressure_composition.

Import Asthenosphere.

(** X18. The pressure is fifteen passes over a copy: when the scratch raster
    is not the pressure raster, the raster that [get_asthenosphere_pressure]
    returns holds the density field smoothed fifteen times by the one-pass
    operator, each pass reading the result of the pass before. *)
Theorem pressure_is_fifteen_passes grid (h : store) density pressure scratch d :
  h !! density = Some d →
  rasters_apart h pressure scratch →
  let result := get_asthenosphere_pressure grid h density pressure scratch in
  result.2 !! result.1 = Some (Nat.iter 15 (smooth grid one) d).
Proof.
  intros Hd Hapart result.
  destruct (pressure_unfold grid h density pressure scratch d Hd Hapart)
    as (p & s & h0 & Hcall & Hne).
  unfold result. rewrite Hcall. cbn [fst snd].
  apply (iter_diffusion_in_place grid _ p s d _ Hne). apply lookup_insert_eq.
Qed.

(** X19. A uniform density gives a uniform pressure: on a grid whose cells
    all have a neighbour, when every cell of the density field holds the
    value [v], every cell of the pressure field holds [v]. *)
Theorem uniform_density_uniform_pressure N grid (h : store) density pressure scratch d
    (v : Q) :
  grid_ok N grid →
  (∀ i, (i < N)%nat → (1 <= out_degree grid i)%nat) →
  h !! density = Some d → length d = N → within v v d →
  rasters_apart h pressure scratch →
  let result := get_asthenosphere_pressure grid h density pressure scratch in
  ∃ a, result.2 !! result.1 = Some a ∧ length a = N ∧ within v v a.
Proof.
  intros Hgrid Hnb Hd Hlen Hv Hapart result.
  destruct (pressure_unfold grid h density pressure scratch d Hd Hapart)
    as (p & s & h0 & Hcall & Hne).
  unfold result. rewrite Hcall. cbn [fst snd].
  rewrite (iter_diffusion_in_place grid _ p s d _ Hne) by apply lookup_insert_eq.
  eexists. split; [reflexivity |].
  by apply (iter_smooth_within N grid Hgrid Hnb).
Qed.

End pressure_composition.

Lemma pressure_is_fifteen_passes_witness :
  let result :=
    Asthenosphere.get_asthenosphere_pressure Examples.ring_grid Examples.ring_store
      0 None None in
  result.2 !! result.1
  = Some (Nat.iter 15 (Asthenosphere.smooth Examples.ring_grid one) Examples.ring_density).
Proof.
  apply pressure_is_fifteen_passes;
    [reflexivity | split; intros l Hl; discriminate Hl].
Defined.

Lemma uniform_density_uniform_pressure_witness :
  let result :=
    Asthenosphere.get_asthenosphere_pressure Examples.ring_grid Examples.uniform_store
      0 None None in
  ∃ a, result.2 !! result.1 = Some a ∧ length a = 4%nat ∧ within 2900 2900 a.
Proof.
  apply (uniform_density_uniform_pressure 4 Examples.ring_grid Examples.uniform_store
           0 None None (replicate 4 (Fin 2900))).
  - split; [repeat constructor; simpl; lia | reflexivity].
  - intros [|[|[|[|i]]]] Hi; vm_compute; lia.
  - reflexivity.
  - reflexivity.
  - repeat constructor; vm_compute; discriminate.
  - split; intros l Hl; discriminate Hl.
Defined.
